(** * Verification of the CameraRaw Cache2 cleaner (src/main.py)

    The script is sequential I/O over a file system: it resolves a target
    directory, validates it, asks for confirmation, scans the tree below the
    target, unlinks the files, removes the directories and prints a summary.

    The development embeds that flow in a small state-and-exception monad
    over a [world] (file system, run log, console), and states the
    properties of the script about [main] run on an arbitrary file system.

    The operating system and [pathlib] are modelled in POSIX flavour:

    - an absolute path is the list of its segments below the root, and
      [str] joins them with the separator;
    - the file system is an association list from physical paths to nodes
      (regular file, directory, symbolic link); its order is the order in
      which directory listings enumerate the entries, so a statement about
      every file system is a statement about every enumeration order;
    - a symbolic link carries its target as an absolute path; links are
      followed by one walker, strict for [stat] (every component has to
      exist) and lenient for [Path.resolve], within the kernel's budget of
      hops;
    - [unlink] and [rmdir] look their argument up as the kernel does: the
      directory part through links, the last component as it is;
    - the file system lists the entries the process can look up; a lookup
      that meets a component longer than the system allows, or a name out
      of reach of the process (a directory it may not search), raises an
      [OSError] that [pathlib] (Python 3.11) does not swallow;
    - nothing but the script changes the file system during a run;
    - the log file is the [log] component of the world, and a run starts
      with whatever an earlier run left in it; the console is the list of
      what was printed; [Confirm.ask] returns the answer the user gives,
      or raises [EOFError] when the input has ended;
    - a character is a code point below 256. *)

From Stdlib Require Import List String Ascii Bool Arith Lia.
From Stdlib Require Import Sorting.Permutation Sorting.Sorted.
From Stdlib Require Import Decimal DecimalString.
Import ListNotations.
Local Open Scope string_scope.
Local Open Scope list_scope.

Set Implicit Arguments.

(* ===================================================================== *)
(** ** Strings *)
(* ===================================================================== *)

Module Str.

Definition char (n : nat) : ascii := ascii_of_nat n.

Definition newline : string := String (char 10) EmptyString.
Definition dquote : ascii := char 34.
Definition squote : ascii := char 39.
Definition slash : ascii := char 47.
Definition backslash : ascii := char 92.

(** [needle in hay] of Python, on strings. *)
Fixpoint contains (needle hay : string) : bool :=
  String.prefix needle hay
  || match hay with
     | EmptyString => false
     | String _ hay' => contains needle hay'
     end.

Fixpoint rev_onto (s acc : string) : string :=
  match s with
  | EmptyString => acc
  | String c s' => rev_onto s' (String c acc)
  end.

Definition rev (s : string) : string := rev_onto s EmptyString.

Fixpoint lstrip (drop : ascii -> bool) (s : string) : string :=
  match s with
  | EmptyString => EmptyString
  | String c s' => if drop c then lstrip drop s' else s
  end.

(** [s.strip(chars)]: drop the characters of the set from both ends. *)
Definition strip (drop : ascii -> bool) (s : string) : string :=
  rev (lstrip drop (rev (lstrip drop s))).

(** [str.isspace]: the white space of Unicode below 256, which is what
    [s.strip()] drops (U+0009-000D, U+001C-0020, U+0085, U+00A0). *)
Definition is_space (c : ascii) : bool :=
  let n := nat_of_ascii c in
  (Nat.leb 9 n && Nat.leb n 13) || (Nat.leb 28 n && Nat.leb n 32)
  || Nat.eqb n 133 || Nat.eqb n 160.

Definition is_char (d c : ascii) : bool := Ascii.eqb d c.

(** [s.replace(old, new)] for single characters. *)
Fixpoint replace (old new : ascii) (s : string) : string :=
  match s with
  | EmptyString => EmptyString
  | String c s' => String (if Ascii.eqb c old then new else c) (replace old new s')
  end.

(** [s.split(sep)] for a single character separator. *)
Fixpoint split_go (sep : ascii) (cur : string) (s : string) : list string :=
  match s with
  | EmptyString => [rev cur]
  | String c s' =>
      if Ascii.eqb c sep then rev cur :: split_go sep EmptyString s'
      else split_go sep (String c cur) s'
  end.

Definition split (sep : ascii) (s : string) : list string :=
  split_go sep EmptyString s.

(** [str(n)] for a natural number. *)
Definition of_nat (n : nat) : string := NilZero.string_of_uint (Nat.to_uint n).

Definition truthy (s : string) : bool :=
  match s with EmptyString => false | _ => true end.

End Str.

(* ===================================================================== *)
(** ** Paths *)
(* ===================================================================== *)

(** An absolute path: its segments below the root. *)
Definition path := list string.

Definition path_eq_dec : forall p q : path, {p = q} + {p <> q} :=
  list_eq_dec string_dec.

Definition path_eqb (p q : path) : bool :=
  if path_eq_dec p q then true else false.

(** [str(p)] for an absolute [PosixPath]. *)
Definition str (p : path) : string :=
  match p with
  | [] => "/"
  | _ => String.concat "" (map (fun seg => String.append "/" seg) p)
  end.

(** [t] is [p] or one of its ancestors, segment by segment. *)
Fixpoint is_prefix (t p : path) : bool :=
  match t, p with
  | [], _ => true
  | _ :: _, [] => false
  | a :: t', b :: p' => String.eqb a b && is_prefix t' p'
  end.

(** [p.is_relative_to(t)]. *)
Definition is_relative_to (p t : path) : bool := is_prefix t p.

(** [t] is a proper ancestor of [p]. *)
Definition strictly_below (t p : path) : bool :=
  is_prefix t p && negb (path_eqb t p).

(** [p.parent] and [p.name]. *)
Definition parent (p : path) : path := removelast p.
Definition name (p : path) : string := last p "".

(** All prefixes of [p], from the root to [p] itself. *)
Fixpoint prefixes (p : path) : list path :=
  match p with
  | [] => [[]]
  | seg :: p' => [] :: map (cons seg) (prefixes p')
  end.

(** A [PurePath] before resolution: anchored at the root or relative. *)
Record pure_path := PurePath { absolute : bool; parts : list string }.

(** [Path(s)]: split at the separator, dropping empty and [.] segments. *)
Definition Path_of_string (s : string) : pure_path :=
  {| absolute := String.prefix "/" s;
     parts := filter (fun seg => negb (String.eqb seg "") && negb (String.eqb seg "."))
                     (Str.split Str.slash s) |}.

(** [p / seg] for a relative right operand. *)
Definition joinpath (p : pure_path) (seg : string) : pure_path :=
  {| absolute := absolute p; parts := parts p ++ parts (Path_of_string seg) |}.

(* ===================================================================== *)
(** ** File system *)
(* ===================================================================== *)

Inductive node := File | Dir | Link (target : path).

Definition filesys := list (path * node).

Inductive exn :=
| TypeError
| RuntimeError            (* symlink loop reported by [Path.resolve] *)
| FileNotFoundError
| NotADirectoryError
| IsADirectoryError
| DirectoryNotEmpty       (* OSError ENOTEMPTY *)
| TooManyLinks            (* OSError ELOOP *)
| NameTooLong             (* OSError ENAMETOOLONG *)
| PermissionError         (* OSError EACCES *)
| EOFError.               (* end of input at a prompt *)

Definition result (A : Type) := (exn + A)%type.

Module FS.

Fixpoint find (fs : filesys) (p : path) : option node :=
  match fs with
  | [] => None
  | (q, n) :: fs' => if path_eq_dec q p then Some n else find fs' p
  end.

(** The node at a physical path; the root is always a directory. *)
Definition node_at (fs : filesys) (p : path) : option node :=
  match p with
  | [] => Some Dir
  | _ => find fs p
  end.

Definition remove (fs : filesys) (p : path) : filesys :=
  filter (fun e => negb (path_eqb (fst e) p)) fs.

Definition keys (fs : filesys) : list path := map fst fs.

(** The kernel's bound on the symbolic links followed in one lookup. *)
Definition symloop_max : nat := 40.

(** The kernel's bound on the bytes of one component (NAME_MAX); a
    character above 127 takes two bytes. *)
Definition name_max : nat := 255.

Fixpoint byte_length (s : string) : nat :=
  match s with
  | EmptyString => 0
  | String c s' => (if Nat.ltb 127 (nat_of_ascii c) then 2 else 1) + byte_length s'
  end.

(** What looking up a component that is not there fails with. *)
Definition missing (seg : string) : exn :=
  if Nat.ltb name_max (byte_length seg) then NameTooLong else FileNotFoundError.

(** One pass over the remaining segments, from the physical path [cur];
    [hop] restarts the walk at the root when a link is met.  In strict
    mode every component has to exist, as for [stat]; otherwise missing
    components are kept as they are written, as for [Path.resolve]. *)
Fixpoint walk (fs : filesys) (strict : bool) (hop : list string -> result path)
         (cur : path) (rest : list string) : result path :=
  match rest with
  | [] => inr cur
  | seg :: rest' =>
      if String.eqb seg ".." then walk fs strict hop (parent cur) rest'
      else
        let next := cur ++ [seg] in
        match find fs next with
        | Some (Link target) => hop (target ++ rest')
        | Some Dir => walk fs strict hop next rest'
        | Some File =>
            match rest' with
            | [] => inr next
            | _ :: _ => if strict then inl NotADirectoryError
                        else walk fs strict hop next rest'
            end
        | None => if strict then inl (missing seg)
                  else walk fs strict hop next rest'
        end
  end.

Fixpoint realpath_hops (hops : nat) (fs : filesys) (strict : bool)
         (segs : list string) : result path :=
  walk fs strict
       (match hops with
        | O => fun _ => inl TooManyLinks
        | S h => realpath_hops h fs strict
        end)
       [] segs.

(** [os.path.realpath(p, strict=...)]. *)
Definition realpath (fs : filesys) (strict : bool) (p : path) : result path :=
  realpath_hops symloop_max fs strict p.

(** [os.stat]: follows links; [None] when the lookup fails. *)
Definition stat (fs : filesys) (p : path) : option node :=
  match realpath fs true p with
  | inr q => node_at fs q
  | inl _ => None
  end.

(** [Path.exists], [Path.is_file], [Path.is_dir]: all through [stat]. *)
Definition exists_ (fs : filesys) (p : path) : bool :=
  match stat fs p with Some _ => true | None => false end.

Definition is_file (fs : filesys) (p : path) : bool :=
  match stat fs p with Some File => true | _ => false end.

Definition is_dir (fs : filesys) (p : path) : bool :=
  match stat fs p with Some Dir => true | _ => false end.

(** [Path.resolve()] of an absolute path: non-strict, a link loop is a
    [RuntimeError].  The loop is found by running out of hops; Python
    itself follows a chain of links of any length, so a path that needs
    more hops than the kernel allows is resolved there and not here. *)
Definition resolve (fs : filesys) (p : path) : result path :=
  match realpath fs false p with
  | inr q => inr q
  | inl _ => inl RuntimeError
  end.

(** The directory of an entry as the kernel finds it: the parent is
    looked up following links, the last component is not. *)
Definition locate (fs : filesys) (p : path) : result path :=
  match p with
  | [] => inl IsADirectoryError
  | _ =>
      match realpath fs true (parent p) with
      | inl e => inl e
      | inr d =>
          match node_at fs d with
          | Some Dir => inr (d ++ [name p])
          | Some _ => inl NotADirectoryError
          | None => inl FileNotFoundError
          end
      end
  end.

Definition has_children (fs : filesys) (d : path) : bool :=
  existsb (fun e => strictly_below d (fst e)) fs.

(** [os.unlink]; the process may write wherever it can look up. *)
Definition unlink (fs : filesys) (p : path) : result filesys :=
  match locate fs p with
  | inl e => inl e
  | inr q =>
      match find fs q with
      | None => inl (missing (name p))
      | Some Dir => inl IsADirectoryError
      | Some File | Some (Link _) => inr (remove fs q)
      end
  end.

(** [os.rmdir]. *)
Definition rmdir (fs : filesys) (p : path) : result filesys :=
  match locate fs p with
  | inl e => inl e
  | inr q =>
      match find fs q with
      | None => inl (missing (name p))
      | Some File | Some (Link _) => inl NotADirectoryError
      | Some Dir => if has_children fs q then inl DirectoryNotEmpty
                    else inr (remove fs q)
      end
  end.

(** The entries between [t] (excluded) and [p] (excluded) are all real
    directories: [p] is reached from [t] without crossing a link. *)
Definition reachable (fs : filesys) (t p : path) : bool :=
  forallb (fun d => negb (strictly_below t d) || negb (strictly_below d p)
                    || match find fs d with Some Dir => true | _ => false end)
          (prefixes p).

(** [t.rglob('*')] for a physical directory [t]: every entry below [t],
    hidden or not; directories are entered, links to directories are
    listed but not entered. *)
Definition rglob (fs : filesys) (t : path) : list path :=
  filter (fun p => strictly_below t p && reachable fs t p) (keys fs).

End FS.

(* ===================================================================== *)
(** ** The world of a run: file system, run log, console *)
(* ===================================================================== *)

Inductive level := INFO | WARNING | ERROR.

(** The messages the script hands to its logger, with their arguments. *)
Inductive message :=
| Cancelled
| NoFilesToDelete
| SkippingFile (p : path)
| DeletedFile (p : path)
| FailedFile (p : path) (e : exn)
| SkippingDirectory (p : path)
| DeletedDirectory (p : path)
| FailedDirectory (p : path) (e : exn)
| Completed.

Definition record := (level * message)%type.

Definition exn_name (e : exn) : string :=
  match e with
  | TypeError => "TypeError"
  | RuntimeError => "RuntimeError"
  | FileNotFoundError => "FileNotFoundError"
  | NotADirectoryError => "NotADirectoryError"
  | IsADirectoryError => "IsADirectoryError"
  | DirectoryNotEmpty => "OSError"
  | TooManyLinks => "OSError"
  | NameTooLong => "OSError"
  | PermissionError => "PermissionError"
  | EOFError => "EOFError"
  end.

(** The text of a log message, as the f-strings of the script build it
    (an exception is shown by its class). *)
Definition render (m : message) : string :=
  match m with
  | Cancelled => "Operation cancelled by user."
  | NoFilesToDelete => "No files to delete in the target directory."
  | SkippingFile p => "Skipping file outside target: " ++ str p
  | DeletedFile p => "Deleted file: " ++ str p
  | FailedFile p e => "Failed to delete file " ++ str p ++ ": " ++ exn_name e
  | SkippingDirectory p => "Skipping directory outside target: " ++ str p
  | DeletedDirectory p => "Deleted directory: " ++ str p
  | FailedDirectory p e => "Failed to delete directory " ++ str p ++ ": " ++ exn_name e
  | Completed => "Deletion process completed."
  end%string.

(** What reaches the console. *)
Inductive console_item :=
| Printed (markup : string)
| Panel (text title style : string)
| Prompt (text : string)
| ProgressUpdate (description : string)
| Table (title : string) (rows : list (string * string)).

Record world := World {
  fs : filesys;
  log : list record;              (* contents of delete_cache.log *)
  console : list console_item
}.

(** How a run can stop before the end of [main]. *)
Inductive halt :=
| SysExit (code : nat)
| Raise (e : exn).

(** State and exceptions. *)
Definition M (A : Type) := world -> (halt + A) * world.

Definition ret {A} (a : A) : M A := fun w => (inr a, w).

Definition bind {A B} (c : M A) (k : A -> M B) : M B :=
  fun w =>
    match c w with
    | (inr a, w') => k a w'
    | (inl h, w') => (inl h, w')
    end.

Declare Scope monad_scope.
Delimit Scope monad_scope with monad.
Notation "x <- c ;; k" := (bind c (fun x => k))
  (at level 61, c at next level, right associativity) : monad_scope.
Notation "c ;; k" := (bind c (fun _ => k))
  (at level 61, right associativity) : monad_scope.
Local Open Scope monad_scope.

Definition raise {A} (e : exn) : M A := fun w => (inl (Raise e), w).

Definition sys_exit {A} (code : nat) : M A := fun w => (inl (SysExit code), w).

(** [try: body except Exception as e: handler]; [SystemExit] is not an
    [Exception] and passes through. *)
Definition try_except {A} (body : M A) (handler : exn -> M A) : M A :=
  fun w =>
    match body w with
    | (inl (Raise e), w') => handler e w'
    | r => r
    end.

Definition lift {A} (r : result A) : M A :=
  match r with
  | inl e => raise e
  | inr a => ret a
  end.

Definition when (b : bool) (c : M unit) : M unit := if b then c else ret tt.

Fixpoint for_each {A} (l : list A) (body : A -> M unit) : M unit :=
  match l with
  | [] => ret tt
  | x :: l' => body x ;; for_each l' body
  end.

Definition get_fs : M filesys := fun w => (inr (fs w), w).

Definition put_fs (fs' : filesys) : M unit :=
  fun w => (inr tt, {| fs := fs'; log := log w; console := console w |}).

Definition console_print (item : console_item) : M unit :=
  fun w => (inr tt, {| fs := fs w; log := log w; console := console w ++ [item] |}).

Definition logger (l : level) (m : message) : M unit :=
  fun w => (inr tt, {| fs := fs w; log := log w ++ [(l, m)]; console := console w |}).

(** [logging.FileHandler(log_path, mode='w')]: the log file starts empty. *)
Definition logging_basicConfig : M unit :=
  fun w => (inr tt, {| fs := fs w; log := []; console := console w |}).

Definition path_resolve (p : path) : M path := f <- get_fs ;; lift (FS.resolve f p).
Definition path_unlink (p : path) : M unit := f <- get_fs ;; f' <- lift (FS.unlink f p) ;; put_fs f'.
Definition path_rmdir (p : path) : M unit := f <- get_fs ;; f' <- lift (FS.rmdir f p) ;; put_fs f'.
Definition path_rglob (t : path) : M (list path) := f <- get_fs ;; ret (FS.rglob f t).

(** A list comprehension with a condition that reads the file system. *)
Fixpoint comprehension (cond : path -> M bool) (l : list path) : M (list path) :=
  match l with
  | [] => ret []
  | p :: l' =>
      b <- cond p ;;
      rest <- comprehension cond l' ;;
      ret (if b then p :: rest else rest)
  end.

(* ===================================================================== *)
(** ** [list.sort(key=..., reverse=True)] *)
(* ===================================================================== *)

Section Sort.
Variable A : Type.
Variable key : A -> nat.

(** Put [x] in front of the first element whose key is not larger. *)
Fixpoint insert_desc (x : A) (l : list A) : list A :=
  match l with
  | [] => [x]
  | y :: l' => if Nat.leb (key y) (key x) then x :: l else y :: insert_desc x l'
  end.

(** Stable: elements with equal keys keep the order of the input. *)
Fixpoint sort_desc (l : list A) : list A :=
  match l with
  | [] => []
  | x :: l' => insert_desc x (sort_desc l')
  end.
End Sort.

(* ===================================================================== *)
(** ** The program *)
(* ===================================================================== *)

(** The parsed command line ([argparse] namespace). *)
Record args := Args {
  arg_path : option string;       (* -p / --path *)
  arg_yes : bool                  (* -y / --yes *)
}.

(** What the process finds around it: the environment, the expansion of
    variable references that [os.path.expandvars] performs with it, the
    working directory, the directory of the script, what the user replies
    when [Confirm.ask] prompts ([None]: the input has ended), the error
    the system raises for a name that is not there for the process, when
    that is not the plain not-found (a directory on the way may not be
    searched), and the contents of [delete_cache.log] when the run
    starts. *)
Record process := Process {
  getenv : string -> option string;
  expandvars : string -> string;
  cwd : path;
  script_dir : path;
  reply : option bool;
  lookup_error : path -> option exn;
  old_log : list record
}.

(** The user answers yes. *)
Definition answer (os : process) : bool :=
  match reply os with
  | Some b => b
  | None => false
  end.

Definition os_sep : ascii := Str.slash.

(** Python's [a or b] on optional strings: [None] and [''] are false. *)
Definition py_or (a b : option string) : option string :=
  match a with
  | Some s => if Str.truthy s then a else b
  | None => b
  end.

Definition opt_truthy (a : option string) : bool :=
  match a with
  | Some s => Str.truthy s
  | None => false
  end.

Definition warning_text : string :=
  "[yellow]This operation will permanently DELETE ALL files in the Adobe CameraRaw Cache2 folder.[/yellow]"
  ++ Str.newline ++ "The files will NOT be moved to the Recycle Bin.".

Definition msg_not_found (t : path) : string :=
  "[red]Error:[/red] The directory " ++ str t ++ " does not exist or is not accessible.".

Definition msg_unexpected : string :=
  "[red]Error:[/red] The specified path is not the expected Adobe CameraRaw Cache2 folder.".

Definition prompt_text (t : path) : string :=
  "Are you sure you want to DELETE ALL files in:" ++ Str.newline ++ "  " ++ str t
  ++ Str.newline ++ "Proceed?".

Section Program.
Variable a : args.
Variable os : process.

(** What [os.stat] raises for [p] besides the errors that [pathlib]
    ignores (ENOENT, ENOTDIR, EBADF, ELOOP): the error of a component
    that is too long, or what the system raises instead of the plain
    not-found.  An entry of the file system is one the process can look
    up: for it there is no such error. *)
Definition stat_error (f : filesys) (p : path) : option exn :=
  match FS.node_at f p with
  | Some _ => None
  | None =>
      match FS.realpath f true p with
      | inl NameTooLong => Some NameTooLong
      | inl FileNotFoundError => lookup_error os p
      | _ => None
      end
  end.

(** [Path.exists], [Path.is_file], [Path.is_dir] of Python 3.11: the
    answer of [stat]; an ignored error is [False], another is re-raised. *)
Definition path_exists (p : path) : M bool :=
  f <- get_fs ;;
  match stat_error f p with
  | Some e => raise e
  | None => ret (FS.exists_ f p)
  end.

Definition path_is_file (p : path) : M bool :=
  f <- get_fs ;;
  match stat_error f p with
  | Some e => raise e
  | None => ret (FS.is_file f p)
  end.

Definition path_is_dir (p : path) : M bool :=
  f <- get_fs ;;
  match stat_error f p with
  | Some e => raise e
  | None => ret (FS.is_dir f p)
  end.

(** [Path(s)] for an optional string: [Path(None)] is a [TypeError]. *)
Definition Path (s : option string) : M pure_path :=
  match s with
  | None => raise TypeError
  | Some s => ret (Path_of_string s)
  end.

(** [Path.resolve()]: a relative path starts at the working directory. *)
Definition resolve (p : pure_path) : M path :=
  path_resolve ((if absolute p then [] else cwd os) ++ parts p).

(** Lines 14-18. *)
Definition normalize_path (path_str : string) : M path :=
  let raw := Str.strip (Str.is_char Str.squote)
               (Str.strip (Str.is_char Str.dquote)
                  (Str.strip Str.is_space path_str)) in
  let expanded := expandvars os raw in
  let expanded := Str.replace Str.backslash os_sep
                    (Str.replace Str.slash os_sep expanded) in
  p <- Path (Some expanded) ;;
  resolve p.

(** Lines 59-64. *)
Definition determine_target : M path :=
  if opt_truthy (arg_path a) then
    match arg_path a with
    | Some s => normalize_path s
    | None => raise TypeError
    end
  else
    let local_appdata := py_or (getenv os "LOCALAPPDATA") (getenv os "APPDATA") in
    p <- Path local_appdata ;;
    let default_path := joinpath (joinpath (joinpath p "Adobe") "CameraRaw") "Cache2" in
    resolve default_path.

(** Lines 68-73; [or] evaluates [is_dir()] only when [exists()] holds. *)
Definition safety_gate (target_path : path) : M unit :=
  ex <- path_exists target_path ;;
  missing <- (if negb ex then ret true
              else isd <- path_is_dir target_path ;; ret (negb isd)) ;;
  when missing
    (console_print (Printed (msg_not_found target_path)) ;;
     sys_exit 1) ;;
  when (negb (Str.contains "CameraRaw" (str target_path))
        || negb (Str.contains "Cache2" (str target_path)))
    (console_print (Printed msg_unexpected) ;;
     sys_exit 1).

(** Lines 75-80; [Confirm.ask] shows the prompt and returns the answer,
    or raises [EOFError] when there is no input left to read. *)
Definition Confirm_ask (prompt : string) : M bool :=
  console_print (Prompt prompt) ;;
  match reply os with
  | Some b => ret b
  | None => raise EOFError
  end.

Definition confirmation (target_path : path) : M unit :=
  when (negb (arg_yes a))
    (ok <- Confirm_ask (prompt_text target_path) ;;
     when (negb ok)
       (console_print (Printed "[green]Operation cancelled by user.[/green]") ;;
        logger INFO Cancelled ;;
        sys_exit 0)).

(** Whether the loop body fell through to its end or hit [continue]. *)
Inductive flow := Fallthrough | Continue.

(** Lines 98-107: the body of the loop over the files. *)
Definition delete_file (target_path file_path : path) : M unit :=
  f <- try_except
         (r <- path_resolve file_path ;;
          if negb (is_relative_to r target_path) then
            logger WARNING (SkippingFile file_path) ;;
            ret Continue
          else
            path_unlink file_path ;;
            logger INFO (DeletedFile file_path) ;;
            ret Fallthrough)
         (fun e =>
            logger ERROR (FailedFile file_path e) ;;
            ret Fallthrough) ;;
  match f with
  | Continue => ret tt
  | Fallthrough =>
      console_print (ProgressUpdate ("Deleting " ++ name file_path))
  end.

(** Lines 109-117: the body of the loop over the directories. *)
Definition delete_dir (target_path dir_path : path) : M unit :=
  try_except
    (r <- path_resolve dir_path ;;
     if negb (is_relative_to r target_path) then
       logger WARNING (SkippingDirectory dir_path)
     else
       path_rmdir dir_path ;;
       logger INFO (DeletedDirectory dir_path))
    (fun e => logger ERROR (FailedDirectory dir_path e)).

(** Lines 82-84. *)
Definition scan_files (target_path : path) : M (list path) :=
  entries <- path_rglob target_path ;;
  comprehension path_is_file entries.

Definition scan_dirs (target_path : path) : M (list path) :=
  entries <- path_rglob target_path ;;
  all_dirs <- comprehension path_is_dir entries ;;
  ret (sort_desc (fun p => String.length (str p)) all_dirs).

(** Lines 86-120; [total_files] is the length of the File List. *)
Definition deletion_engine (target_path : path) (all_files all_dirs : list path) : M unit :=
  let total_files := List.length all_files in
  if Nat.eqb total_files 0 then
    console_print (Printed "[yellow]No files to delete in the target directory.[/yellow]") ;;
    logger INFO NoFilesToDelete
  else
    console_print (Printed ("[cyan]Deleting " ++ Str.of_nat total_files ++ " files...[/cyan]")) ;;
    console_print (ProgressUpdate "Deleting files...") ;;
    for_each all_files (delete_file target_path) ;;
    for_each all_dirs (delete_dir target_path) ;;
    console_print (Printed ("[green]Deletion process completed.[/green]" ++ Str.newline)) ;;
    logger INFO Completed.

(** Lines 123-129. *)
Definition summary (target_path log_path : path) (total_files : nat) : M unit :=
  console_print
    (Table "Summary"
       [("Target Directory", str target_path);
        ("Files Deleted", Str.of_nat total_files);
        ("Log File", str log_path)]).

(** Lines 20-129. *)
Definition main : M unit :=
  let log_path := script_dir os ++ ["delete_cache.log"] in
  logging_basicConfig ;;
  console_print (Panel warning_text "Cache2 Deletion Warning" "bold red") ;;
  target_path <- determine_target ;;
  console_print (Printed ("[bold]Target Cache2 directory:[/bold] " ++ str target_path)) ;;
  safety_gate target_path ;;
  confirmation target_path ;;
  all_files <- scan_files target_path ;;
  all_dirs <- scan_dirs target_path ;;
  deletion_engine target_path all_files all_dirs ;;
  summary target_path log_path (List.length all_files).

End Program.

(** A run of the script on a file system: the log file holds what an
    earlier run left in it, the console starts empty. *)
Definition run (a : args) (os : process) (f : filesys) : (halt + unit) * world :=
  main a os {| fs := f; log := old_log os; console := [] |}.

(* ===================================================================== *)
(** ** Vocabulary of the statements *)
(* ===================================================================== *)

(** [f'] is [f] with some entries deleted. *)
Definition sub (f' f : filesys) : Prop :=
  forall q n, FS.find f' q = Some n -> FS.find f q = Some n.

Definition is_link (o : option node) : bool :=
  match o with Some (Link _) => true | _ => false end.

(** No component of [d] is a symbolic link: [d] is a physical path. *)
Definition plain (f : filesys) (d : path) : bool :=
  forallb (fun d' => negb (is_link (FS.node_at f d'))) (prefixes d).

Definition no_dotdot (p : path) : bool :=
  forallb (fun seg => negb (String.eqb seg "..")) p.

(** No entry of a directory is called [..]. *)
Definition wf_names (f : filesys) : bool :=
  forallb (fun e => no_dotdot (fst e)) f.

Fixpoint nodupb (l : list path) : bool :=
  match l with
  | [] => true
  | p :: l' => negb (existsb (path_eqb p) l') && nodupb l'
  end.

(** A file system: proper names, and one entry per path. *)
Definition wf_fs (f : filesys) : bool := wf_names f && nodupb (FS.keys f).

(** The system calls on [p] act on the entry written [p]. *)
Definition good (f : filesys) (p : path) : Prop :=
  p <> [] /\ plain f (parent p) = true /\ no_dotdot (parent p) = true.

(** The order a descending sort by [key] establishes. *)
Definition key_order (A : Type) (key : A -> nat) (x y : A) : Prop := key y <= key x.

(** The File List and the Directory List of a scan of [t]. *)
Definition all_files_of (f : filesys) (t : path) : list path :=
  filter (FS.is_file f) (FS.rglob f t).

Definition all_dirs_of (f : filesys) (t : path) : list path :=
  sort_desc (fun p => String.length (str p)) (filter (FS.is_dir f) (FS.rglob f t)).

(** The entry a log record is about, and the entry it reports deleted. *)
Definition record_path (r : record) : option path :=
  match snd r with
  | SkippingFile p | DeletedFile p | FailedFile p _
  | SkippingDirectory p | DeletedDirectory p | FailedDirectory p _ => Some p
  | Cancelled | NoFilesToDelete | Completed => None
  end.

Definition deleted_path (r : record) : option path :=
  match r with
  | (INFO, DeletedFile p) | (INFO, DeletedDirectory p) => Some p
  | _ => None
  end.

Definition file_record (p : path) (r : record) : Prop :=
  r = (WARNING, SkippingFile p) \/ r = (INFO, DeletedFile p)
  \/ exists e, r = (ERROR, FailedFile p e).

Definition dir_record (p : path) (r : record) : Prop :=
  r = (WARNING, SkippingDirectory p) \/ r = (INFO, DeletedDirectory p)
  \/ exists e, r = (ERROR, FailedDirectory p e).

(** A record of an entry-level failure: a skip or an error. *)
Definition is_failure (r : record) : bool :=
  match fst r with INFO => false | WARNING | ERROR => true end.

(** The processing of one entry [p] by a loop body that deletes with [op]:
    one record about [p] is logged, and either nothing changes, or the
    containment check passed, [op] succeeded and the record says so. *)
Definition step_ok (t : path) (op : filesys -> path -> result filesys)
           (about : path -> record -> Prop) (p : path) (w w' : world) (r : record) : Prop :=
  log w' = log w ++ [r] /\ about p r /\
  ((deleted_path r = None /\ fs w' = fs w) \/
   (deleted_path r = Some p /\ op (fs w) p = inr (fs w') /\
    exists rp, FS.resolve (fs w) p = inr rp /\ is_relative_to rp t = true)).

(** The rows of the summary table, if one was printed last. *)
Definition summary_rows (w : world) : option (list (string * string)) :=
  match last (console w) (Printed "") with
  | Table _ rows => Some rows
  | _ => None
  end.

Fixpoint lookup_row (k : string) (rows : list (string * string)) : option string :=
  match rows with
  | [] => None
  | (k', v) :: rows' => if String.eqb k k' then Some v else lookup_row k rows'
  end.

(** The value of the "Files Deleted" row of the summary. *)
Definition files_deleted_row (w : world) : option string :=
  match summary_rows w with
  | Some rows => lookup_row "Files Deleted" rows
  | None => None
  end.

Definition prompt_shown (w : world) : bool :=
  existsb (fun i => match i with Prompt _ => true | _ => false end) (console w).

(** What a loop over the entries [l] leaves behind: one record per entry,
    in order. *)
Definition loop_log (about : path -> record -> Prop) (l : list path)
           (w w' : world) (recs : list record) : Prop :=
  log w' = log w ++ recs /\ Forall2 about l recs.

(** Its effect on the file system: entries are only deleted, exactly the
    ones reported deleted are gone, and they are entries of [l]. *)
Definition loop_fs (l : list path) (f f' : filesys) (recs : list record) : Prop :=
  sub f' f /\
  (forall q, FS.find f' q = FS.find f q
             \/ exists r, In r recs /\ deleted_path r = Some q) /\
  (forall r q, In r recs -> deleted_path r = Some q ->
               FS.find f' q = None /\ In q l).

(** What the deletion engine leaves behind. *)
Definition engine_ok (files dirs : list path) (w w' : world) : Prop :=
  match files with
  | [] => fs w' = fs w /\ log w' = log w ++ [(INFO, NoFilesToDelete)]
  | _ :: _ =>
      exists frecs drecs,
        log w' = log w ++ frecs ++ drecs ++ [(INFO, Completed)]
        /\ Forall2 file_record files frecs
        /\ Forall2 dir_record dirs drecs
        /\ ((forall p, In p (files ++ dirs) -> good (fs w) p) ->
            loop_fs (files ++ dirs) (fs w) (fs w') (frecs ++ drecs))
  end.

Definition say (w : world) (i : console_item) : world :=
  {| fs := fs w; log := log w; console := console w ++ [i] |}.

Definition summary_table (os : process) (t : path) (n : nat) : console_item :=
  Table "Summary"
    [("Target Directory", str t);
     ("Files Deleted", Str.of_nat n);
     ("Log File", str (script_dir os ++ ["delete_cache.log"]))].

(** The attempts a log reports, in order. *)
Inductive kind := FileEntry | DirEntry.

Definition attempt_of (r : record) : option (kind * path) :=
  match snd r with
  | SkippingFile p | DeletedFile p | FailedFile p _ => Some (FileEntry, p)
  | SkippingDirectory p | DeletedDirectory p | FailedDirectory p _ => Some (DirEntry, p)
  | Cancelled | NoFilesToDelete | Completed => None
  end.

Fixpoint attempts (l : list record) : list (kind * path) :=
  match l with
  | [] => []
  | r :: l' =>
      match attempt_of r with
      | Some a => a :: attempts l'
      | None => attempts l'
      end
  end.

(** The world when the target is determined: the log file is open and
    empty, the warning panel is on the console. *)
Definition start (f : filesys) : world :=
  {| fs := f; log := [];
     console := [Panel warning_text "Cache2 Deletion Warning" "bold red"] |}.

(** The resolved target of a run, or how determining it failed. *)
Definition target_of (a : args) (os : process) (f : filesys) : halt + path :=
  fst (determine_target a os (start f)).

Definition markers_ok (t : path) : bool :=
  Str.contains "CameraRaw" (str t) && Str.contains "Cache2" (str t).

(** The Safety Gate lets the target through. *)
Definition accepted (f : filesys) (t : path) : bool :=
  FS.exists_ f t && FS.is_dir f t && markers_ok t.

(** How line 68 ends the run for a target that is not a directory: with
    the error the lookup raises, or with the message and [sys.exit(1)]. *)
Definition rejected_missing (os : process) (f : filesys) (t : path) (w : world)
  : (halt + unit) * world :=
  match stat_error os f t with
  | Some e => (inl (Raise e), w)
  | None => (inl (SysExit 1), say w (Printed (msg_not_found t)))
  end.

(** The run is not cancelled: no prompt, or the answer is yes. *)
Definition confirmed (a : args) (os : process) : bool :=
  arg_yes a || answer os.

Definition target_line (t : path) : console_item :=
  Printed ("[bold]Target Cache2 directory:[/bold] " ++ str t).

(** The world a declined confirmation leaves. *)
Definition cancelled_world (w : world) (t : path) : world :=
  {| fs := fs w; log := log w ++ [(INFO, Cancelled)];
     console := console w ++ [Prompt (prompt_text t);
                              Printed "[green]Operation cancelled by user.[/green]"] |}.

(** How the prompt ends the run when the answer is not yes: with
    [sys.exit(0)] after a no, with [EOFError] when there is no answer. *)
Definition declined (os : process) (w : world) (t : path) : (halt + unit) * world :=
  match reply os with
  | Some _ => (inl (SysExit 0), cancelled_world w t)
  | None => (inl (Raise EOFError), say w (Prompt (prompt_text t)))
  end.

(** The world in which the deletion engine starts. *)
Definition engine_start (a : args) (os : process) (f : filesys) (t : path) : world :=
  let w := say (start f) (target_line t) in
  if arg_yes a then w else say w (Prompt (prompt_text t)).

Definition len_str (p : path) : nat := String.length (str p).

(** A record about an entry, of either loop. *)
Definition entry_record (p : path) (r : record) : Prop :=
  file_record p r \/ dir_record p r.

(** The log reports no entry-level failure. *)
Definition no_failures (w : world) : bool :=
  forallb (fun r => negb (is_failure r)) (log w).

Definition is_cancellation (r : record) : bool :=
  match r with (INFO, Cancelled) => true | _ => false end.

Definition is_deleted_file (r : record) : bool :=
  match r with (INFO, DeletedFile _) => true | _ => false end.

(** Example paths and file systems. *)
Module Ex.

Definition home : path := ["home"; "u"].
Definition cache2 : path := home ++ ["Adobe"; "CameraRaw"; "Cache2"].

Definition base : filesys :=
  [ (["home"], Dir); (home, Dir); (home ++ ["Adobe"], Dir);
    (home ++ ["Adobe"; "CameraRaw"], Dir); (cache2, Dir) ].

(** [a.dat], [b.dat] and the empty directory [sub/]. *)
Definition two_files : filesys :=
  base ++ [ (cache2 ++ ["a.dat"], File); (cache2 ++ ["sub"], Dir);
            (cache2 ++ ["b.dat"], File) ].

(** Directories in directories, and a long name. *)
Definition nested : filesys :=
  base ++ [ (cache2 ++ ["a"], Dir);
            (cache2 ++ ["a"; "bb"], Dir);
            (cache2 ++ ["a"; "bb"; "x.dat"], File);
            (cache2 ++ ["zzzzzzzz"], Dir) ].

(** Only an empty directory below the target. *)
Definition only_subdir : filesys :=
  base ++ [ (cache2 ++ ["sub"], Dir) ].

(** A link in the target to a file elsewhere. *)
Definition link_out : filesys :=
  base ++ [ (["home"; "keep.txt"], File);
            (cache2 ++ ["shortcut"], Link ["home"; "keep.txt"]) ].

(** A file, a link to a file elsewhere and a link to a directory elsewhere. *)
Definition mixed : filesys :=
  base ++ [ (["home"; "keep.txt"], File);
            (cache2 ++ ["a.dat"], File);
            (cache2 ++ ["shortcut"], Link ["home"; "keep.txt"]);
            (cache2 ++ ["up"], Link home) ].

(** What an earlier, completed run left in the log file. *)
Definition earlier_log : list record :=
  [(INFO, DeletedFile (cache2 ++ ["old.dat"])); (INFO, Completed)].

Definition os (ans : bool) : process :=
  {| getenv := fun _ => None;
     expandvars := fun s => s;
     cwd := home;
     script_dir := ["opt"; "tool"];
     reply := Some ans;
     lookup_error := fun _ => None;
     old_log := earlier_log |}.

(** An environment with [LOCALAPPDATA] set. *)
Definition os_local (ans : bool) : process :=
  {| getenv := fun v => if String.eqb v "LOCALAPPDATA" then Some "/home/u" else None;
     expandvars := fun s => s;
     cwd := ["opt"; "tool"];
     script_dir := ["opt"; "tool"];
     reply := Some ans;
     lookup_error := fun _ => None;
     old_log := earlier_log |}.

Definition with_path (yes : bool) : args :=
  {| arg_path := Some "/home/u/Adobe/CameraRaw/Cache2"; arg_yes := yes |}.

Definition no_path (yes : bool) : args :=
  {| arg_path := None; arg_yes := yes |}.



(** A name of 300 characters, and a target of that name. *)
Definition long_name : string :=
  String.concat "" (repeat "aaaaaaaaaa" 30).

Definition too_long (yes : bool) : args :=
  {| arg_path := Some ("/home/u/Adobe/CameraRaw/Cache2/" ++ long_name)%string;
     arg_yes := yes |}.

(** A directory of the target that the process may not search: its
    entries are out of reach, and looking one up is a [PermissionError]. *)
Definition os_denied : process :=
  {| getenv := fun _ => None;
     expandvars := fun s => s;
     cwd := home;
     script_dir := ["opt"; "tool"];
     reply := Some true;
     lookup_error := fun p => if is_prefix (cache2 ++ ["locked"]) p
                              then Some PermissionError else None;
     old_log := earlier_log |}.

Definition locked_dir : filesys :=
  base ++ [ (cache2 ++ ["locked"], Dir) ].

Definition in_locked (yes : bool) : args :=
  {| arg_path := Some "/home/u/Adobe/CameraRaw/Cache2/locked/Cache2"; arg_yes := yes |}.

(** The input has ended before the prompt. *)
Definition os_eof : process :=
  {| getenv := fun _ => None;
     expandvars := fun s => s;
     cwd := home;
     script_dir := ["opt"; "tool"];
     reply := None;
     lookup_error := fun _ => None;
     old_log := earlier_log |}.

End Ex.

(* ===================================================================== *)
(** ** Vocabulary of the further properties *)
(* ===================================================================== *)

(** Every character of [s] passes [test]. *)
Fixpoint all_chars (test : ascii -> bool) (s : string) : bool :=
  match s with
  | EmptyString => true
  | String c s' => test c && all_chars test s'
  end.

(** The first character of [s] is one that [strip] drops. *)
Definition starts_with (drop : ascii -> bool) (s : string) : bool :=
  match s with
  | EmptyString => false
  | String c _ => drop c
  end.

(** Neither end of [s] is a character that [strip] drops. *)
Definition ends_kept (drop : ascii -> bool) (s : string) : bool :=
  negb (starts_with drop s) && negb (starts_with drop (Str.rev s)).

(** The characters [normalize_path] strips: white space and both quotes. *)
Definition is_wrapping (c : ascii) : bool :=
  Str.is_space c || Str.is_char Str.dquote c || Str.is_char Str.squote c.

(** A printable ASCII character other than the blank and the two quotes. *)
Definition is_plain_char (c : ascii) : bool :=
  Nat.leb 33 (nat_of_ascii c) && Nat.leb (nat_of_ascii c) 126 && negb (is_wrapping c).

(** Both ends of [s] are such characters. *)
Definition plain_ends (s : string) : bool :=
  starts_with is_plain_char s && starts_with is_plain_char (Str.rev s).

(** The log reports [q] deleted. *)
Definition reported_deleted (l : list record) (q : path) : bool :=
  existsb (fun r => match deleted_path r with
                    | Some p => path_eqb p q
                    | None => false
                    end) l.

(** Every entry sits in a directory. *)
Definition tree_shaped (f : filesys) : bool :=
  forallb (fun e => negb (path_eqb (fst e) [])
                    && match FS.node_at f (parent (fst e)) with
                       | Some Dir => true
                       | _ => false
                       end) f.

(** The same process with another answer at the prompt. *)
Definition with_answer (os : process) (b : bool) : process :=
  {| getenv := getenv os; expandvars := expandvars os; cwd := cwd os;
     script_dir := script_dir os; reply := Some b;
     lookup_error := lookup_error os; old_log := old_log os |}.

(** Two worlds with the same file system and the same log, and a
    computation that cannot tell them apart. *)
Definition agree (w v : world) : Prop := fs w = fs v /\ log w = log v.

Definition respects (A : Type) (c : M A) : Prop :=
  forall w v, agree w v -> fst (c w) = fst (c v) /\ agree (snd (c w)) (snd (c v)).

(** The same command line with [--yes]. *)
Definition with_yes (a : args) : args :=
  {| arg_path := arg_path a; arg_yes := true |}.

(** The default target as it is written: the application data directory
    [v] with the three folder names appended. *)
Definition default_target_of (os : process) (v : string) : path :=
  (if absolute (Path_of_string v) then [] else cwd os)
  ++ parts (Path_of_string v) ++ ["Adobe"; "CameraRaw"; "Cache2"].

(** The elements of [l] whose key is [k], in the order of [l]. *)
Definition with_key (A : Type) (key : A -> nat) (k : nat) (l : list A) : list A :=
  filter (fun x => Nat.eqb (key x) k) l.

(** Further example environments. *)
Module Ex2.

(** [LOCALAPPDATA] set but empty, [APPDATA] not set. *)
Definition os_empty_local : process :=
  {| getenv := fun v => if String.eqb v "LOCALAPPDATA" then Some "" else None;
     expandvars := fun s => s;
     cwd := Ex.home;
     script_dir := ["opt"; "tool"];
     reply := Some true;
     lookup_error := fun _ => None;
     old_log := [] |}.

(** A link in the target to a file deeper in the target. *)
Definition deep_link : filesys :=
  Ex.base ++ [ (Ex.cache2 ++ ["x"], Dir);
               (Ex.cache2 ++ ["x"; "a.dat"], File);
               (Ex.cache2 ++ ["l"], Link (Ex.cache2 ++ ["x"; "a.dat"])) ].

End Ex2.

(* ===================================================================== *)
(** ** Paths and the association list *)
(* ===================================================================== *)

Lemma path_eqb_true p q : path_eqb p q = true <-> p = q.
Proof. unfold path_eqb. destruct (path_eq_dec p q); split; congruence. Qed.

Lemma path_eqb_false p q : path_eqb p q = false <-> p <> q.
Proof. unfold path_eqb. destruct (path_eq_dec p q); split; congruence. Qed.

Lemma is_prefix_spec t p : is_prefix t p = true <-> exists r, p = t ++ r.
Proof.
  revert p. induction t as [|a t IH]; intros p; simpl.
  - split; eauto.
  - destruct p as [|b p].
    + split; [discriminate | intros [r Hr]; discriminate].
    + rewrite andb_true_iff, String.eqb_eq, IH. split.
      * intros [-> [r ->]]. now exists r.
      * intros [r Hr]. injection Hr as -> ->. eauto.
Qed.

Lemma is_prefix_refl p : is_prefix p p = true.
Proof. apply is_prefix_spec. exists []. now rewrite app_nil_r. Qed.

Lemma is_prefix_app t r : is_prefix t (t ++ r) = true.
Proof. apply is_prefix_spec. eauto. Qed.

Lemma is_prefix_trans a b c :
  is_prefix a b = true -> is_prefix b c = true -> is_prefix a c = true.
Proof.
  rewrite !is_prefix_spec. intros [r ->] [s ->]. exists (r ++ s).
  now rewrite app_assoc.
Qed.

Lemma is_prefix_antisym a b :
  is_prefix a b = true -> is_prefix b a = true -> a = b.
Proof.
  rewrite !is_prefix_spec. intros [r ->] [s Hs].
  rewrite <- app_assoc in Hs. rewrite <- (app_nil_r a) in Hs at 1.
  apply app_inv_head in Hs. symmetry in Hs. apply app_eq_nil in Hs as [-> _].
  now rewrite app_nil_r.
Qed.

Lemma is_prefix_comparable a b p :
  is_prefix a p = true -> is_prefix b p = true ->
  is_prefix a b = true \/ is_prefix b a = true.
Proof.
  revert b p. induction a as [|x a IH]; intros b p; simpl; [now left|].
  destruct p as [|z p]; [discriminate|].
  destruct b as [|y b]; [now right|]. simpl.
  rewrite !andb_true_iff, !String.eqb_eq. intros [-> Ha] [-> Hb].
  destruct (IH _ _ Ha Hb) as [H|H]; [left|right]; split; auto.
Qed.

Lemma strictly_below_spec t p :
  strictly_below t p = true <-> exists r, r <> [] /\ p = t ++ r.
Proof.
  unfold strictly_below. rewrite andb_true_iff, negb_true_iff, path_eqb_false, is_prefix_spec.
  split.
  - intros [[r ->] Hne]. exists r. split; [|reflexivity].
    intros ->. apply Hne. now rewrite app_nil_r.
  - intros [r [Hr ->]]. split; [eauto|]. intros H.
    rewrite <- (app_nil_r t) in H at 1. apply app_inv_head in H. congruence.
Qed.

Lemma strictly_below_prefix t p : strictly_below t p = true -> is_prefix t p = true.
Proof. unfold strictly_below. now rewrite andb_true_iff. Qed.

Lemma strictly_below_irrefl t : strictly_below t t = false.
Proof.
  unfold strictly_below. rewrite is_prefix_refl. simpl.
  apply negb_false_iff, path_eqb_true. reflexivity.
Qed.

Lemma strictly_below_nonempty t p : strictly_below t p = true -> p <> [].
Proof.
  rewrite strictly_below_spec. intros [r [Hr ->]] H.
  apply app_eq_nil in H as [_ H]. contradiction.
Qed.

Lemma in_prefixes d p : In d (prefixes p) <-> is_prefix d p = true.
Proof.
  revert d. induction p as [|seg p IH]; intros d; simpl.
  - destruct d; simpl; intuition (try discriminate; congruence).
  - rewrite in_map_iff. destruct d as [|x d]; simpl.
    + intuition.
    + rewrite andb_true_iff, String.eqb_eq. split.
      * intros [H|[d' [H Hin]]]; [discriminate|].
        injection H as <- <-. split; [reflexivity|]. now apply IH.
      * intros [-> H]. right. exists d. split; [reflexivity|]. now apply IH.
Qed.

Lemma parent_snoc (p : path) seg : parent (p ++ [seg]) = p.
Proof. unfold parent. apply removelast_last. Qed.

Lemma parent_name p : p <> [] -> parent p ++ [name p] = p.
Proof. intros H. unfold parent, name. symmetry. now apply app_removelast_last. Qed.

Lemma is_prefix_parent p : is_prefix (parent p) p = true.
Proof.
  destruct (path_eq_dec p []) as [->|H]; [reflexivity|].
  rewrite <- (parent_name H) at 2. apply is_prefix_app.
Qed.

Lemma strictly_below_parent d p :
  p <> [] -> is_prefix d (parent p) = true -> strictly_below d p = true.
Proof.
  intros Hp. rewrite is_prefix_spec, strictly_below_spec. intros [r Hr].
  exists (r ++ [name p]). split.
  - intros H. apply app_eq_nil in H as [_ H]. discriminate.
  - rewrite app_assoc, <- Hr. symmetry. now apply parent_name.
Qed.

Lemma no_dotdot_app p q : no_dotdot (p ++ q) = no_dotdot p && no_dotdot q.
Proof. unfold no_dotdot. apply forallb_app. Qed.

Lemma no_dotdot_prefix d p :
  is_prefix d p = true -> no_dotdot p = true -> no_dotdot d = true.
Proof.
  rewrite is_prefix_spec. intros [r ->]. rewrite no_dotdot_app, andb_true_iff. tauto.
Qed.

Lemma find_remove f p q :
  FS.find (FS.remove f p) q = if path_eq_dec p q then None else FS.find f q.
Proof.
  induction f as [|[k n] f IH]; simpl.
  - now destruct (path_eq_dec p q).
  - unfold path_eqb. destruct (path_eq_dec k p) as [->|Hk]; simpl.
    + rewrite IH. destruct (path_eq_dec p q); reflexivity.
    + rewrite IH. destruct (path_eq_dec k q) as [->|Hq].
      * destruct (path_eq_dec p q); [congruence|reflexivity].
      * reflexivity.
Qed.

Lemma find_remove_same f p : FS.find (FS.remove f p) p = None.
Proof. rewrite find_remove. destruct (path_eq_dec p p); congruence. Qed.

Lemma find_remove_other f p q : p <> q -> FS.find (FS.remove f p) q = FS.find f q.
Proof. intros H. rewrite find_remove. destruct (path_eq_dec p q); congruence. Qed.

Lemma find_In f p n : FS.find f p = Some n -> In p (FS.keys f).
Proof.
  induction f as [|[k m] f IH]; simpl; [discriminate|].
  destruct (path_eq_dec k p); auto.
Qed.

Lemma In_find f p : In p (FS.keys f) -> exists n, FS.find f p = Some n.
Proof.
  induction f as [|[k m] f IH]; simpl; [tauto|].
  destruct (path_eq_dec k p); eauto. intros [H|H]; [congruence|auto].
Qed.

Lemma sub_refl f : sub f f.
Proof. intros q n H. exact H. Qed.

Lemma sub_trans f g h : sub f g -> sub g h -> sub f h.
Proof. intros H1 H2 q n H. auto. Qed.

Lemma sub_remove f p : sub (FS.remove f p) f.
Proof.
  intros q n. rewrite find_remove. destruct (path_eq_dec p q); [discriminate|auto].
Qed.

Lemma node_at_snoc f (d : path) seg : FS.node_at f (d ++ [seg]) = FS.find f (d ++ [seg]).
Proof. destruct d; reflexivity. Qed.

Lemma node_at_sub f' f q n : sub f' f -> FS.node_at f' q = Some n -> FS.node_at f q = Some n.
Proof. intros Hs. destruct q; simpl; auto. Qed.

Lemma plain_spec f d :
  plain f d = true <-> forall d', is_prefix d' d = true -> is_link (FS.node_at f d') = false.
Proof.
  unfold plain. rewrite forallb_forall. split; intros H d' Hd'.
  - apply negb_true_iff, H, in_prefixes, Hd'.
  - apply negb_true_iff, H, in_prefixes, Hd'.
Qed.

Lemma plain_root f : plain f [] = true.
Proof. reflexivity. Qed.

Lemma plain_sub f' f d : sub f' f -> plain f d = true -> plain f' d = true.
Proof.
  intros Hs. rewrite !plain_spec. intros H d' Hd'. specialize (H d' Hd').
  destruct (FS.node_at f' d') as [[| |tg]|] eqn:E; try reflexivity.
  apply (node_at_sub _ Hs) in E. now rewrite E in H.
Qed.

Lemma plain_prefix f d p :
  is_prefix d p = true -> plain f p = true -> plain f d = true.
Proof.
  rewrite !plain_spec. intros Hd H d' Hd'. apply H. eapply is_prefix_trans; eauto.
Qed.

Lemma plain_snoc f d seg :
  plain f d = true -> is_link (FS.find f (d ++ [seg])) = false ->
  plain f (d ++ [seg]) = true.
Proof.
  rewrite !plain_spec. intros H Hl d' Hd'.
  destruct (path_eq_dec d' (d ++ [seg])) as [->|Hne]; [now rewrite node_at_snoc|].
  apply H. apply is_prefix_spec in Hd' as [r Hr].
  destruct (exists_last (l:=r)) as [r' [x Hx]].
  - intros ->. rewrite app_nil_r in Hr. congruence.
  - subst r. rewrite app_assoc in Hr. apply app_inj_tail in Hr as [-> _].
    apply is_prefix_app.
Qed.

Lemma plain_parent f d : plain f d = true -> plain f (parent d) = true.
Proof. apply plain_prefix, is_prefix_parent. Qed.

Lemma good_sub f' f p : sub f' f -> good f p -> good f' p.
Proof.
  intros Hs [H1 [H2 H3]]. repeat split; auto. eapply plain_sub; eauto.
Qed.

(* ===================================================================== *)
(** ** Following links *)
(* ===================================================================== *)

Lemma realpath_hops_eq h f s segs :
  FS.realpath_hops h f s segs =
  FS.walk f s (match h with
               | O => fun _ => inl TooManyLinks
               | S h' => FS.realpath_hops h' f s
               end) [] segs.
Proof. destruct h; reflexivity. Qed.

(** On a physical path the walker follows the segments as written. *)
Lemma walk_plain f s hop : forall rest cur r,
  plain f (cur ++ rest) = true -> no_dotdot rest = true ->
  FS.walk f s hop cur rest = inr r -> r = cur ++ rest.
Proof.
  induction rest as [|seg rest IH]; intros cur r Hp Hn H; simpl in H.
  - rewrite app_nil_r. congruence.
  - simpl in Hn. apply andb_true_iff in Hn as [Hseg Hn].
    apply negb_true_iff in Hseg. rewrite Hseg in H.
    assert (Hcur : cur ++ seg :: rest = (cur ++ [seg]) ++ rest)
      by (rewrite <- app_assoc; reflexivity).
    assert (Hl : is_link (FS.find f (cur ++ [seg])) = false).
    { rewrite <- node_at_snoc. rewrite plain_spec in Hp. apply Hp.
      rewrite Hcur. apply is_prefix_app. }
    rewrite Hcur in *.
    destruct (FS.find f (cur ++ [seg])) as [[| |tg]|]; try discriminate Hl.
    + destruct rest.
      * rewrite app_nil_r. congruence.
      * destruct s; [discriminate|]. now apply IH.
    + now apply IH.
    + destruct s; [discriminate|]. now apply IH.
Qed.

Lemma realpath_plain f s p r :
  plain f p = true -> no_dotdot p = true ->
  FS.realpath f s p = inr r -> r = p.
Proof.
  unfold FS.realpath. rewrite realpath_hops_eq. intros Hp Hn H.
  now apply walk_plain in H.
Qed.

(** What the walker returns is a physical path. *)
Lemma walk_result_plain f s hop :
  (forall segs q, hop segs = inr q -> plain f q = true) ->
  forall rest cur r, plain f cur = true ->
  FS.walk f s hop cur rest = inr r -> plain f r = true.
Proof.
  intros Hhop. induction rest as [|seg rest IH]; intros cur r Hp H; simpl in H.
  - congruence.
  - destruct (String.eqb seg "..").
    + eapply IH; [|exact H]. now apply plain_parent.
    + destruct (FS.find f (cur ++ [seg])) as [[| |tg]|] eqn:E.
      * assert (Hn : plain f (cur ++ [seg]) = true)
          by (apply plain_snoc; [assumption | now rewrite E]).
        destruct rest; [congruence|]. destruct s; [discriminate|]. eapply IH; eauto.
      * eapply IH; [|exact H]. apply plain_snoc; [assumption | now rewrite E].
      * eapply Hhop; eauto.
      * destruct s; [discriminate|]. eapply IH; [|exact H].
        apply plain_snoc; [assumption | now rewrite E].
Qed.

Lemma realpath_hops_result_plain f s : forall h segs r,
  FS.realpath_hops h f s segs = inr r -> plain f r = true.
Proof.
  induction h as [|h IH]; intros segs r; rewrite realpath_hops_eq; intros H.
  - eapply walk_result_plain; [|apply plain_root|exact H]. discriminate.
  - eapply walk_result_plain; [|apply plain_root|exact H]. exact IH.
Qed.

Lemma resolve_result_plain f segs t : FS.resolve f segs = inr t -> plain f t = true.
Proof.
  unfold FS.resolve, FS.realpath.
  destruct (FS.realpath_hops FS.symloop_max f false segs) eqn:E; [discriminate|].
  intros H. injection H as <-. eapply realpath_hops_result_plain; eauto.
Qed.

(** A strict lookup that succeeds after deletions succeeded before them. *)
Lemma walk_mono f' f hop' hop :
  sub f' f ->
  (forall segs q, hop' segs = inr q -> hop segs = inr q) ->
  forall rest cur q,
    FS.walk f' true hop' cur rest = inr q -> FS.walk f true hop cur rest = inr q.
Proof.
  intros Hs Hhop. induction rest as [|seg rest IH]; intros cur q H; simpl in *.
  - exact H.
  - destruct (String.eqb seg ".."); [now apply IH|].
    destruct (FS.find f' (cur ++ [seg])) as [[| |tg]|] eqn:E; try discriminate.
    + apply Hs in E. rewrite E. destruct rest; [exact H|discriminate].
    + apply Hs in E. rewrite E. now apply IH.
    + apply Hs in E. rewrite E. now apply Hhop.
Qed.

Lemma realpath_hops_mono f' f : sub f' f -> forall h segs q,
  FS.realpath_hops h f' true segs = inr q -> FS.realpath_hops h f true segs = inr q.
Proof.
  intros Hs. induction h as [|h IH]; intros segs q; rewrite !realpath_hops_eq.
  - apply walk_mono; [assumption|discriminate].
  - apply walk_mono; assumption.
Qed.

Lemma stat_mono f' f p n : sub f' f -> FS.stat f' p = Some n -> FS.stat f p = Some n.
Proof.
  intros Hs. unfold FS.stat, FS.realpath.
  destruct (FS.realpath_hops FS.symloop_max f' true p) as [e|q] eqn:E; [discriminate|].
  rewrite (realpath_hops_mono Hs _ _ E). now apply node_at_sub.
Qed.

Lemma is_file_mono f' f p : sub f' f -> FS.is_file f' p = true -> FS.is_file f p = true.
Proof.
  intros Hs. unfold FS.is_file. destruct (FS.stat f' p) as [[| |tg]|] eqn:E; try discriminate.
  now rewrite (stat_mono _ Hs E).
Qed.

Lemma is_dir_mono f' f p : sub f' f -> FS.is_dir f' p = true -> FS.is_dir f p = true.
Proof.
  intros Hs. unfold FS.is_dir. destruct (FS.stat f' p) as [[| |tg]|] eqn:E; try discriminate.
  now rewrite (stat_mono _ Hs E).
Qed.

(* ===================================================================== *)
(** ** The scan *)
(* ===================================================================== *)

Lemma in_rglob f t p :
  In p (FS.rglob f t) <->
  In p (FS.keys f) /\ strictly_below t p = true /\ FS.reachable f t p = true.
Proof.
  unfold FS.rglob. rewrite filter_In, andb_true_iff. tauto.
Qed.

Lemma reachable_spec f t p :
  FS.reachable f t p = true <->
  forall d, strictly_below t d = true -> strictly_below d p = true ->
            FS.find f d = Some Dir.
Proof.
  unfold FS.reachable. rewrite forallb_forall. split.
  - intros H d Ht Hp. specialize (H d).
    rewrite Ht, Hp in H. simpl in H.
    assert (Hin : In d (prefixes p))
      by now apply in_prefixes, strictly_below_prefix.
    specialize (H Hin). destruct (FS.find f d) as [[| |tg]|]; congruence.
  - intros H d _. destruct (strictly_below t d) eqn:Ht; [|reflexivity].
    destruct (strictly_below d p) eqn:Hp; [|reflexivity].
    simpl. now rewrite (H d Ht Hp).
Qed.

Lemma reachable_sub f' f t p :
  sub f' f -> FS.reachable f' t p = true -> FS.reachable f t p = true.
Proof.
  intros Hs. rewrite !reachable_spec. intros H d Ht Hp. apply Hs. auto.
Qed.

Lemma wf_names_key f p : wf_names f = true -> In p (FS.keys f) -> no_dotdot p = true.
Proof.
  unfold wf_names, FS.keys. rewrite forallb_forall, in_map_iff.
  intros H [e [<- He]]. auto.
Qed.

(** The system calls on a scanned entry act on the entry itself. *)
Lemma rglob_good f t p :
  wf_names f = true -> plain f t = true -> In p (FS.rglob f t) -> good f p.
Proof.
  intros Hwf Ht. rewrite in_rglob. intros [Hk [Hb Hr]].
  assert (Hp : p <> []) by now apply strictly_below_nonempty in Hb.
  repeat split; [assumption| |].
  - apply plain_spec. intros d Hd.
    assert (Hdp : strictly_below d p = true) by now apply strictly_below_parent.
    destruct (is_prefix_comparable d t p) as [H|H].
    + now apply strictly_below_prefix.
    + now apply strictly_below_prefix.
    + rewrite plain_spec in Ht. now apply Ht.
    + destruct (path_eq_dec t d) as [<-|Hne].
      * rewrite plain_spec in Ht. apply Ht, is_prefix_refl.
      * assert (Htd : strictly_below t d = true).
        { unfold strictly_below. rewrite H. simpl.
          now apply negb_true_iff, path_eqb_false. }
        rewrite reachable_spec in Hr. specialize (Hr d Htd Hdp).
        assert (Hd0 : d <> []) by now apply strictly_below_nonempty in Htd.
        destruct d; [congruence|]. simpl. now rewrite Hr.
  - eapply no_dotdot_prefix; [apply is_prefix_parent|].
    eapply wf_names_key; eauto.
Qed.

(* ===================================================================== *)
(** ** The system calls *)
(* ===================================================================== *)

Lemma locate_good f p q : good f p -> FS.locate f p = inr q -> q = p.
Proof.
  intros [Hp [Hpl Hn]] H.
  assert (E : FS.locate f p =
              match FS.realpath f true (parent p) with
              | inl e => inl e
              | inr d =>
                  match FS.node_at f d with
                  | Some Dir => inr (d ++ [name p])
                  | Some _ => inl NotADirectoryError
                  | None => inl FileNotFoundError
                  end
              end) by (destruct p; [congruence|reflexivity]).
  rewrite E in H. clear E.
  destruct (FS.realpath f true (parent p)) as [e|d] eqn:E; [discriminate|].
  apply realpath_plain in E; auto. subst d.
  destruct (FS.node_at f (parent p)) as [[| |tg]|]; try discriminate.
  injection H as <-. now apply parent_name.
Qed.

Lemma unlink_good f p f' :
  good f p -> FS.unlink f p = inr f' -> f' = FS.remove f p.
Proof.
  intros Hg. unfold FS.unlink. destruct (FS.locate f p) as [e|q] eqn:E; [discriminate|].
  apply locate_good in E; auto. subst q.
  destruct (FS.find f p) as [[| |tg]|]; congruence.
Qed.

Lemma rmdir_good f p f' :
  good f p -> FS.rmdir f p = inr f' -> f' = FS.remove f p.
Proof.
  intros Hg. unfold FS.rmdir. destruct (FS.locate f p) as [e|q] eqn:E; [discriminate|].
  apply locate_good in E; auto. subst q.
  destruct (FS.find f p) as [[| |tg]|]; try discriminate.
  destruct (FS.has_children f p); congruence.
Qed.

(* ===================================================================== *)
(** ** The loop bodies and the loops *)
(* ===================================================================== *)

Ltac run_monad :=
  cbv beta iota zeta delta
    [delete_file delete_dir try_except bind path_resolve path_unlink path_rmdir
     path_exists path_is_dir path_is_file path_rglob get_fs lift put_fs logger
     ret raise sys_exit console_print when logging_basicConfig].

Ltac step_done :=
  do 2 eexists; split; [reflexivity|]; cbn [fs log console];
  split; [reflexivity|]; split; [eauto|].

Ltac step_cases op w p t :=
  destruct (FS.resolve (fs w) p) as [?e|?rp] eqn:?Er;
  [ step_done; left; split; reflexivity
  | destruct (is_relative_to rp t) eqn:?Hrel; cbn [negb];
    [ destruct (op (fs w) p) as [?e|?f'] eqn:?Eop;
      [ step_done; left; split; reflexivity
      | step_done; right; split; [reflexivity|]; split; [reflexivity|]; eauto ]
    | step_done; left; split; reflexivity ] ].

Lemma delete_file_step t p w :
  exists w' r, delete_file t p w = (inr tt, w')
               /\ step_ok t FS.unlink file_record p w w' r.
Proof. unfold step_ok, file_record. run_monad. step_cases FS.unlink w p t. Qed.

Lemma delete_dir_step t p w :
  exists w' r, delete_dir t p w = (inr tt, w')
               /\ step_ok t FS.rmdir dir_record p w w' r.
Proof. unfold step_ok, dir_record. run_monad. step_cases FS.rmdir w p t. Qed.

Section Loop.
Variable t : path.
Variable op : filesys -> path -> result filesys.
Variable about : path -> record -> Prop.
Variable body : path -> M unit.

Hypothesis body_step : forall p w,
  exists w' r, body p w = (inr tt, w') /\ step_ok t op about p w w' r.
Hypothesis op_good : forall f p f', good f p -> op f p = inr f' -> f' = FS.remove f p.

(** A loop never stops the run, and logs one record per entry; on
    entries the system calls reach as written it only deletes, and
    exactly what it reports. *)
Lemma for_each_spec : forall l w,
  exists w' recs,
    for_each l body w = (inr tt, w') /\ loop_log about l w w' recs
    /\ ((forall p, In p l -> good (fs w) p) -> loop_fs l (fs w) (fs w') recs).
Proof.
  induction l as [|p l IH]; intros w.
  - exists w, []. split; [reflexivity|]. split.
    + split; [now rewrite app_nil_r | constructor].
    + intros _. split; [apply sub_refl|]. split; [now left|]. intros r q [].
  - destruct (body_step p w) as (w1 & r & Hb & Hlog & Hab & Hcase).
    destruct (IH w1) as (w' & recs & Hfe & [Hl HF] & Hfs).
    exists w', (r :: recs). split; [|split].
    + simpl. unfold bind. now rewrite Hb.
    + split; [|now constructor].
      rewrite Hl, Hlog, <- app_assoc. reflexivity.
    + intros Hg.
      assert (Hgp : good (fs w) p) by (apply Hg; now left).
      assert (Hstep : (fs w1 = fs w /\ deleted_path r = None)
                      \/ (fs w1 = FS.remove (fs w) p /\ deleted_path r = Some p)).
      { destruct Hcase as [[Hd Hf]|[Hd [Hop _]]]; [now left|right].
        split; [|assumption]. eapply op_good; eauto. }
      assert (Hsub1 : sub (fs w1) (fs w)).
      { destruct Hstep as [[-> _]|[-> _]]; [apply sub_refl | apply sub_remove]. }
      destruct Hfs as (Hs & Hq & Hd).
      { intros p' Hp'. eapply good_sub; [exact Hsub1|]. apply Hg. now right. }
      split; [eapply sub_trans; eauto|]. split.
      * intros q. destruct (Hq q) as [Heq|[r' [Hr' Hdel]]].
        -- rewrite Heq. destruct Hstep as [[-> _]|[-> Hdel]]; [now left|].
           rewrite find_remove. destruct (path_eq_dec p q) as [<-|Hne]; [|now left].
           right. exists r. split; [now left | assumption].
        -- right. exists r'. split; [now right | assumption].
      * intros r' q [<-|Hin] Hdel.
        -- destruct Hstep as [[_ Hn]|[Hrm Hp]]; [congruence|].
           assert (q = p) by congruence. subst q. split; [|now left].
           destruct (FS.find (fs w') p) as [n|] eqn:E; [|reflexivity].
           apply Hs in E. rewrite Hrm, find_remove_same in E. discriminate.
        -- destruct (Hd r' q Hin Hdel) as [H1 H2]. split; [assumption | now right].
Qed.
End Loop.

Lemma files_loop_spec t l w :
  exists w' recs,
    for_each l (delete_file t) w = (inr tt, w') /\ loop_log file_record l w w' recs
    /\ ((forall p, In p l -> good (fs w) p) -> loop_fs l (fs w) (fs w') recs).
Proof.
  apply for_each_spec with (t := t) (op := FS.unlink).
  - apply delete_file_step.
  - apply unlink_good.
Qed.

Lemma dirs_loop_spec t l w :
  exists w' recs,
    for_each l (delete_dir t) w = (inr tt, w') /\ loop_log dir_record l w w' recs
    /\ ((forall p, In p l -> good (fs w) p) -> loop_fs l (fs w) (fs w') recs).
Proof.
  apply for_each_spec with (t := t) (op := FS.rmdir).
  - apply delete_dir_step.
  - apply rmdir_good.
Qed.

(* ===================================================================== *)
(** ** The phases of [main] *)
(* ===================================================================== *)

Lemma loop_fs_app l1 l2 f f1 f2 r1 r2 :
  loop_fs l1 f f1 r1 -> loop_fs l2 f1 f2 r2 -> loop_fs (l1 ++ l2) f f2 (r1 ++ r2).
Proof.
  intros (Hs1 & Hq1 & Hd1) (Hs2 & Hq2 & Hd2). split; [eapply sub_trans; eauto|]. split.
  - intros q. destruct (Hq2 q) as [->|[r [Hr Hd]]].
    + destruct (Hq1 q) as [->|[r [Hr Hd]]]; [now left|].
      right. exists r. split; [apply in_or_app; now left | assumption].
    + right. exists r. split; [apply in_or_app; now right | assumption].
  - intros r q Hin Hd. apply in_app_or in Hin as [Hin|Hin].
    + destruct (Hd1 r q Hin Hd) as [Hn Hl]. split; [|apply in_or_app; now left].
      destruct (FS.find f2 q) as [n|] eqn:E; [|reflexivity].
      apply Hs2 in E. congruence.
    + destruct (Hd2 r q Hin Hd) as [Hn Hl]. split; [assumption|apply in_or_app; now right].
Qed.

Lemma comprehension_filter (test : filesys -> path -> bool) (cond : path -> M bool) w l :
  (forall p, In p l -> cond p w = (inr (test (fs w) p), w)) ->
  comprehension cond l w = (inr (filter (test (fs w)) l), w).
Proof.
  induction l as [|p l IH]; intros Hc; simpl; [reflexivity|].
  unfold bind. rewrite Hc by now left. rewrite IH; [reflexivity|].
  intros q Hq. apply Hc. now right.
Qed.

(** A lookup that raises has failed. *)
Lemma stat_error_some os f p e : stat_error os f p = Some e -> FS.stat f p = None.
Proof.
  unfold stat_error, FS.stat. destruct (FS.node_at f p); [discriminate|].
  destruct (FS.realpath f true p); [reflexivity|discriminate].
Qed.

Lemma find_key f p : In p (FS.keys f) -> FS.find f p <> None.
Proof.
  unfold FS.keys. induction f as [|[q n] f IH]; simpl; [tauto|].
  intros [<-|H].
  - destruct (path_eq_dec q q); [discriminate|congruence].
  - destruct (path_eq_dec q p); [discriminate|now apply IH].
Qed.

(** The lookups of the scan raise nothing: what [rglob] yields is listed. *)
Lemma stat_error_listed os f t p : In p (FS.rglob f t) -> stat_error os f p = None.
Proof.
  unfold FS.rglob. intros H. apply filter_In in H as [Hk Hb].
  apply find_key in Hk. unfold stat_error.
  destruct p as [|seg p]; cbn [FS.node_at]; [reflexivity|].
  destruct (FS.find f (seg :: p)); [reflexivity|congruence].
Qed.

Lemma scan_files_eq os t w : scan_files os t w = (inr (all_files_of (fs w) t), w).
Proof.
  unfold scan_files, path_rglob, get_fs, bind, ret, all_files_of.
  rewrite (@comprehension_filter FS.is_file); [reflexivity|].
  intros p Hp. unfold path_is_file, bind, get_fs, ret.
  now rewrite (stat_error_listed os _ _ _ Hp).
Qed.

Lemma scan_dirs_eq os t w : scan_dirs os t w = (inr (all_dirs_of (fs w) t), w).
Proof.
  unfold scan_dirs, path_rglob, get_fs, bind, ret, all_dirs_of.
  rewrite (@comprehension_filter FS.is_dir); [reflexivity|].
  intros p Hp. unfold path_is_dir, bind, get_fs, ret.
  now rewrite (stat_error_listed os _ _ _ Hp).
Qed.

Lemma deletion_engine_spec t files dirs w :
  exists w', deletion_engine t files dirs w = (inr tt, w') /\ engine_ok files dirs w w'.
Proof.
  unfold deletion_engine, engine_ok. destruct files as [|p files].
  - simpl. eexists. split; [reflexivity|]. split; reflexivity.
  - cbn [List.length Nat.eqb]. unfold bind, console_print, logger.
    match goal with
    | |- context [for_each (p :: files) _ ?w0] =>
        destruct (files_loop_spec t (p :: files) w0) as (w1 & frecs & Hf & [Hfl HfF] & Hffs)
    end.
    destruct (dirs_loop_spec t dirs w1) as (w2 & drecs & Hd & [Hdl HdF] & Hdfs).
    rewrite Hf, Hd. eexists. split; [reflexivity|].
    exists frecs, drecs. split; [|split; [assumption|split; [assumption|]]].
    + cbn [log] in *. rewrite Hdl, Hfl. now rewrite <- !app_assoc.
    + intros Hg. cbn [fs] in *. eapply loop_fs_app.
      * apply Hffs. intros q Hq. apply Hg, in_or_app. now left.
      * apply Hdfs. intros q Hq.
        assert (Hs : sub (fs w1) (fs w)).
        { apply Hffs. intros q' Hq'. apply Hg, in_or_app. now left. }
        eapply good_sub; [exact Hs|]. apply Hg, in_or_app. now right.
Qed.

Lemma path_resolve_pure p w :
  path_resolve p w = (fst (path_resolve p w), w)
  /\ forall t, fst (path_resolve p w) = inr t -> FS.resolve (fs w) p = inr t.
Proof.
  unfold path_resolve, bind, get_fs, lift, raise, ret.
  destruct (FS.resolve (fs w) p); simpl; split; try reflexivity; congruence.
Qed.

(** Determining the target reads the file system and changes nothing; a
    target it returns is the result of [Path.resolve]. *)
Lemma determine_target_pure a os w :
  determine_target a os w = (fst (determine_target a os w), w)
  /\ forall t, fst (determine_target a os w) = inr t ->
               exists segs, FS.resolve (fs w) segs = inr t.
Proof.
  unfold determine_target, normalize_path, resolve, Path.
  destruct (opt_truthy (arg_path a)).
  - destruct (arg_path a) as [s|].
    + unfold bind at 1. unfold ret at 1.
      match goal with |- context [path_resolve ?p w] =>
        destruct (path_resolve_pure p w) as [H1 H2] end.
      split; [exact H1 | eauto].
    + split; [reflexivity | discriminate].
  - destruct (py_or (getenv os "LOCALAPPDATA") (getenv os "APPDATA")) as [s|].
    + unfold bind at 1. unfold ret at 1.
      match goal with |- context [path_resolve ?p w] =>
        destruct (path_resolve_pure p w) as [H1 H2] end.
      split; [exact H1 | eauto].
    + split; [reflexivity | discriminate].
Qed.

Lemma is_dir_exists f t : FS.is_dir f t = true -> FS.exists_ f t = true.
Proof. unfold FS.is_dir, FS.exists_. destruct (FS.stat f t); [reflexivity|discriminate]. Qed.

Lemma safety_gate_eq os t w :
  safety_gate os t w =
  if FS.is_dir (fs w) t then
    if markers_ok t then (inr tt, w)
    else (inl (SysExit 1), say w (Printed msg_unexpected))
  else rejected_missing os (fs w) t w.
Proof.
  unfold safety_gate, markers_ok, rejected_missing. run_monad.
  destruct (stat_error os (fs w) t) as [e|] eqn:He.
  - apply stat_error_some in He. unfold FS.is_dir. now rewrite He.
  - destruct (FS.is_dir (fs w) t) eqn:Hd.
    + rewrite (is_dir_exists _ _ Hd). cbn [negb]. rewrite He, Hd. cbn [negb].
      destruct (Str.contains "CameraRaw" (str t)), (Str.contains "Cache2" (str t));
        reflexivity.
    + destruct (FS.exists_ (fs w) t); cbn [negb]; [rewrite He, Hd|]; reflexivity.
Qed.

Lemma answer_reply os : answer os = true <-> reply os = Some true.
Proof. unfold answer. destruct (reply os) as [[|]|]; split; congruence. Qed.

Lemma confirmation_eq a os t w :
  confirmation a os t w =
  if arg_yes a then (inr tt, w)
  else if answer os then (inr tt, say w (Prompt (prompt_text t)))
       else declined os w t.
Proof.
  unfold confirmation, Confirm_ask, cancelled_world, declined, answer. run_monad.
  destruct (arg_yes a); [reflexivity|]. cbn [negb].
  destruct (reply os) as [[|]|]; cbn [negb]; [reflexivity| |reflexivity].
  cbn [fs log console]. now rewrite <- app_assoc.
Qed.

(** Both ways of stopping before the scan leave the file system and the
    records of the log as they are. *)
Lemma rejected_missing_end os f t w out w' :
  rejected_missing os f t w = (out, w') ->
  (exists h, out = inl h) /\ fs w' = fs w /\ log w' = log w
  /\ (forall s, In (Prompt s) (console w') -> In (Prompt s) (console w)).
Proof.
  unfold rejected_missing. destruct (stat_error os f t); intros H;
    injection H as <- <-; (split; [eexists; reflexivity|]);
    cbn [fs log console say]; repeat split; try tauto.
  intros s Hs. apply in_app_or in Hs as [Hs|[Hs|[]]]; [assumption|discriminate].
Qed.

Lemma declined_end os w t out w' :
  declined os w t = (out, w') ->
  (exists h, out = inl h) /\ fs w' = fs w
  /\ (log w' = log w \/ log w' = log w ++ [(INFO, Cancelled)])
  /\ In (Prompt (prompt_text t)) (console w').
Proof.
  unfold declined, cancelled_world. destruct (reply os); intros H;
    injection H as <- <-; (split; [eexists; reflexivity|]);
    cbn [fs log console say]; (split; [reflexivity|]); (split; [tauto|]);
    apply in_or_app; right; now left.
Qed.

(** Every run is one of five. *)
Lemma run_cases a os f :
  match target_of a os f with
  | inl h => run a os f = (inl h, start f)
  | inr t =>
      let w := say (start f) (target_line t) in
      if negb (FS.is_dir f t) then
        run a os f = rejected_missing os f t w
      else if negb (markers_ok t) then
        run a os f = (inl (SysExit 1), say w (Printed msg_unexpected))
      else if negb (confirmed a os) then
        run a os f = declined os w t
      else
        exists w',
          deletion_engine t (all_files_of f t) (all_dirs_of f t) (engine_start a os f t)
          = (inr tt, w')
          /\ engine_ok (all_files_of f t) (all_dirs_of f t) (engine_start a os f t) w'
          /\ run a os f
             = (inr tt, say w' (summary_table os t (List.length (all_files_of f t))))
  end.
Proof.
  unfold target_of.
  assert (Hrun : run a os f =
                 (target_path <- determine_target a os ;;
                  console_print (target_line target_path) ;;
                  safety_gate os target_path ;;
                  confirmation a os target_path ;;
                  all_files <- scan_files os target_path ;;
                  all_dirs <- scan_dirs os target_path ;;
                  deletion_engine target_path all_files all_dirs ;;
                  summary target_path (script_dir os ++ ["delete_cache.log"])
                          (List.length all_files)) (start f)) by reflexivity.
  revert Hrun. generalize (run a os f). intros r Hr.
  destruct (determine_target_pure a os (start f)) as [Hpure _].
  unfold bind at 1 in Hr. rewrite Hpure in Hr.
  destruct (fst (determine_target a os (start f))) as [h|t]; [exact Hr|].
  cbv zeta. unfold bind at 1 in Hr. unfold console_print at 1 in Hr.
  fold (say (start f) (target_line t)) in Hr.
  set (w := say (start f) (target_line t)) in *.
  unfold bind at 1 in Hr. rewrite safety_gate_eq in Hr. change (fs w) with f in Hr.
  destruct (FS.is_dir f t); cbn [negb].
  2:{ rewrite Hr. unfold rejected_missing. now destruct (stat_error os f t). }
  destruct (markers_ok t); cbn [negb]; [|exact Hr].
  unfold bind at 1 in Hr. rewrite confirmation_eq in Hr.
  unfold confirmed, engine_start. fold w.
  destruct (arg_yes a); cbn [orb negb].
  - unfold bind at 1 in Hr. rewrite scan_files_eq in Hr.
    unfold bind at 1 in Hr. rewrite scan_dirs_eq in Hr. change (fs w) with f in Hr.
    destruct (deletion_engine_spec t (all_files_of f t) (all_dirs_of f t) w)
      as (w' & He & Hok).
    exists w'. split; [assumption|]. split; [assumption|].
    unfold bind in Hr. rewrite He in Hr. exact Hr.
  - destruct (answer os); cbn [negb].
    2:{ rewrite Hr. unfold declined. now destruct (reply os). }
    set (w1 := say w (Prompt (prompt_text t))) in *.
    unfold bind at 1 in Hr. rewrite scan_files_eq in Hr.
    unfold bind at 1 in Hr. rewrite scan_dirs_eq in Hr. change (fs w1) with f in Hr.
    destruct (deletion_engine_spec t (all_files_of f t) (all_dirs_of f t) w1)
      as (w' & He & Hok).
    exists w'. split; [assumption|]. split; [assumption|].
    unfold bind in Hr. rewrite He in Hr. exact Hr.
Qed.

(* ===================================================================== *)
(** ** Sorting by descending length *)
(* ===================================================================== *)

Section SortFacts.
Variable A : Type.
Variable key : A -> nat.

Lemma insert_desc_perm x l : Permutation (insert_desc key x l) (x :: l).
Proof.
  induction l as [|y l IH]; simpl; [reflexivity|].
  destruct (Nat.leb (key y) (key x)); [reflexivity|].
  rewrite IH. apply perm_swap.
Qed.

Lemma sort_desc_perm l : Permutation (sort_desc key l) l.
Proof.
  induction l as [|x l IH]; simpl; [reflexivity|].
  rewrite insert_desc_perm. now constructor.
Qed.

Lemma sort_desc_In x l : In x (sort_desc key l) <-> In x l.
Proof.
  split; apply Permutation_in; [|symmetry]; apply sort_desc_perm.
Qed.

Lemma insert_desc_sorted x l :
  StronglySorted (key_order key) l -> StronglySorted (key_order key) (insert_desc key x l).
Proof.
  induction 1 as [|y l Hs IH Hall]; simpl.
  - repeat constructor.
  - destruct (Nat.leb (key y) (key x)) eqn:E.
    + apply Nat.leb_le in E. constructor; [now constructor|].
      constructor; [exact E|].
      eapply Forall_impl; [|exact Hall]. unfold key_order. intros z Hz. lia.
    + apply Nat.leb_gt in E. constructor; [assumption|].
      eapply Permutation_Forall; [symmetry; apply insert_desc_perm|].
      constructor; [unfold key_order; lia | assumption].
Qed.

Lemma sort_desc_sorted l : StronglySorted (key_order key) (sort_desc key l).
Proof.
  induction l as [|x l IH]; simpl; [constructor|]. now apply insert_desc_sorted.
Qed.

Lemma sorted_nth l : StronglySorted (key_order key) l ->
  forall i j x y, i < j -> nth_error l i = Some x -> nth_error l j = Some y ->
                  key y <= key x.
Proof.
  induction 1 as [|z l Hs IH Hall]; intros i j x y Hij Hi Hj.
  - destruct i; discriminate.
  - destruct j as [|j]; [lia|]. simpl in Hj. destruct i as [|i]; simpl in Hi.
    + injection Hi as ->. rewrite Forall_forall in Hall.
      apply Hall. eapply nth_error_In; eauto.
    + eapply IH; [|eassumption|eassumption]. lia.
Qed.

(** In the sorted list a larger key comes first. *)
Lemma sort_desc_order l i j x y :
  nth_error (sort_desc key l) i = Some x ->
  nth_error (sort_desc key l) j = Some y ->
  key x < key y -> j < i.
Proof.
  intros Hi Hj Hk. destruct (Nat.lt_trichotomy i j) as [H|[H|H]]; [| |assumption].
  - pose proof (sorted_nth (sort_desc_sorted l) H Hi Hj). lia.
  - subst j. rewrite Hi in Hj. injection Hj as ->. lia.
Qed.
End SortFacts.

Lemma length_append s1 s2 :
  String.length (s1 ++ s2)%string = String.length s1 + String.length s2.
Proof. induction s1 as [|c s1 IH]; simpl; [reflexivity|now rewrite IH]. Qed.

Lemma length_concat_app l1 l2 :
  String.length (String.concat "" (l1 ++ l2)) =
  String.length (String.concat "" l1) + String.length (String.concat "" l2).
Proof.
  induction l1 as [|x l1 IH]; [reflexivity|].
  destruct l1 as [|y l1].
  - simpl. destruct l2 as [|z l2]; simpl.
    + lia.
    + now rewrite length_append.
  - change ((x :: y :: l1) ++ l2) with (x :: (y :: l1) ++ l2).
    change (String.concat "" (x :: (y :: l1) ++ l2))
      with (x ++ "" ++ String.concat "" ((y :: l1) ++ l2))%string.
    change (String.concat "" (x :: y :: l1))
      with (x ++ "" ++ String.concat "" (y :: l1))%string.
    rewrite !length_append, IH. simpl. lia.
Qed.

Lemma length_concat_pos l :
  l <> [] ->
  0 < String.length (String.concat "" (map (fun seg => String.append "/" seg) l)).
Proof.
  destruct l as [|x l]; [congruence|]. intros _.
  change (x :: l) with ([x] ++ l). rewrite map_app, length_concat_app. simpl. lia.
Qed.

(** The string of a descendant is strictly longer than its ancestor's. *)
Lemma len_str_below d x :
  d <> [] -> strictly_below d x = true -> len_str d < len_str x.
Proof.
  intros Hd. rewrite strictly_below_spec. intros [r [Hr ->]].
  unfold len_str, str. destruct d as [|s d]; [congruence|].
  change ((s :: d) ++ r) with (s :: d ++ r).
  cbv iota. change (s :: d ++ r) with ((s :: d) ++ r).
  rewrite map_app, length_concat_app.
  pose proof (length_concat_pos Hr). lia.
Qed.

(* ===================================================================== *)
(** ** The attempts a log reports *)
(* ===================================================================== *)

Lemma attempts_app l1 l2 : attempts (l1 ++ l2) = attempts l1 ++ attempts l2.
Proof.
  induction l1 as [|r l1 IH]; simpl; [reflexivity|].
  destruct (attempt_of r); simpl; now rewrite IH.
Qed.

Lemma attempts_files files recs :
  Forall2 file_record files recs -> attempts recs = map (pair FileEntry) files.
Proof.
  induction 1 as [|p r files recs Hr HF IH]; simpl; [reflexivity|].
  destruct Hr as [->|[->|[e ->]]]; simpl; now rewrite IH.
Qed.

Lemma attempts_dirs dirs recs :
  Forall2 dir_record dirs recs -> attempts recs = map (pair DirEntry) dirs.
Proof.
  induction 1 as [|p r dirs recs Hr HF IH]; simpl; [reflexivity|].
  destruct Hr as [->|[->|[e ->]]]; simpl; now rewrite IH.
Qed.

(* ===================================================================== *)
(** ** Whole runs *)
(* ===================================================================== *)

Lemma walk_result_no_dotdot f s hop :
  (forall segs q, hop segs = inr q -> no_dotdot q = true) ->
  forall rest cur r, no_dotdot cur = true ->
  FS.walk f s hop cur rest = inr r -> no_dotdot r = true.
Proof.
  intros Hhop. induction rest as [|seg rest IH]; intros cur r Hc H; simpl in H.
  - congruence.
  - destruct (String.eqb seg "..") eqn:Hseg.
    + eapply IH; [|exact H]. eapply no_dotdot_prefix; [apply is_prefix_parent|assumption].
    + assert (Hn : no_dotdot (cur ++ [seg]) = true).
      { rewrite no_dotdot_app, Hc. simpl. now rewrite Hseg. }
      destruct (FS.find f (cur ++ [seg])) as [[| |tg]|].
      * destruct rest; [congruence|]. destruct s; [discriminate|]. eapply IH; eauto.
      * eapply IH; eauto.
      * eapply Hhop; eauto.
      * destruct s; [discriminate|]. eapply IH; eauto.
Qed.

Lemma realpath_hops_no_dotdot f s : forall h segs r,
  FS.realpath_hops h f s segs = inr r -> no_dotdot r = true.
Proof.
  induction h as [|h IH]; intros segs r; rewrite realpath_hops_eq; intros H.
  - eapply walk_result_no_dotdot; [| |exact H]; [discriminate|reflexivity].
  - eapply walk_result_no_dotdot; [| |exact H]; [exact IH|reflexivity].
Qed.

Lemma resolve_result_no_dotdot f segs t : FS.resolve f segs = inr t -> no_dotdot t = true.
Proof.
  unfold FS.resolve, FS.realpath.
  destruct (FS.realpath_hops FS.symloop_max f false segs) eqn:E; [discriminate|].
  intros H. injection H as <-. eapply realpath_hops_no_dotdot; eauto.
Qed.

(** The target of a run is a physical path. *)
Lemma target_plain a os f t :
  target_of a os f = inr t -> plain f t = true /\ no_dotdot t = true.
Proof.
  unfold target_of. intros H.
  destruct (determine_target_pure a os (start f)) as [_ Hres].
  destruct (Hres t H) as [segs Hs]. simpl in Hs. split.
  - eapply resolve_result_plain; eauto.
  - eapply resolve_result_no_dotdot; eauto.
Qed.

Lemma target_is_dir a os f t :
  target_of a os f = inr t -> FS.is_dir f t = true -> FS.node_at f t = Some Dir.
Proof.
  intros Ht. destruct (target_plain _ _ _ Ht) as [Hp Hn].
  unfold FS.is_dir, FS.stat. destruct (FS.realpath f true t) as [e|q] eqn:E; [discriminate|].
  apply realpath_plain in E; auto. subst q.
  destruct (FS.node_at f t) as [[| |tg]|]; congruence.
Qed.

Lemma in_all_files f t p :
  In p (all_files_of f t) <-> In p (FS.rglob f t) /\ FS.is_file f p = true.
Proof. unfold all_files_of. apply filter_In. Qed.

Lemma in_all_dirs f t p :
  In p (all_dirs_of f t) <-> In p (FS.rglob f t) /\ FS.is_dir f p = true.
Proof. unfold all_dirs_of. rewrite sort_desc_In. apply filter_In. Qed.

Lemma in_scan f t p :
  In p (all_files_of f t ++ all_dirs_of f t) -> In p (FS.rglob f t).
Proof.
  intros H. apply in_app_or in H as [H|H].
  - now apply in_all_files in H.
  - now apply in_all_dirs in H.
Qed.

Lemma scan_good a os f t :
  wf_names f = true -> target_of a os f = inr t ->
  forall p, In p (all_files_of f t ++ all_dirs_of f t) -> good f p.
Proof.
  intros Hwf Ht p Hp. eapply rglob_good; eauto.
  - eapply target_plain; eauto.
  - now apply in_scan.
Qed.

Lemma scan_below f t p :
  In p (all_files_of f t ++ all_dirs_of f t) -> strictly_below t p = true.
Proof. intros H. apply in_scan, in_rglob in H. tauto. Qed.

Lemma engine_start_fs a os f t : fs (engine_start a os f t) = f.
Proof. unfold engine_start. destruct (arg_yes a); reflexivity. Qed.

Lemma engine_start_log a os f t : log (engine_start a os f t) = [].
Proof. unfold engine_start. destruct (arg_yes a); reflexivity. Qed.

(** A run either leaves the file system alone and attempts nothing, or it
    is a full run of the deletion engine on a non-empty File List. *)
Lemma run_shape a os f out w' :
  run a os f = (out, w') ->
  (fs w' = f /\ attempts (log w') = [])
  \/ (exists t frecs drecs,
        target_of a os f = inr t /\ out = inr tt
        /\ all_files_of f t <> []
        /\ log w' = frecs ++ drecs ++ [(INFO, Completed)]
        /\ Forall2 file_record (all_files_of f t) frecs
        /\ Forall2 dir_record (all_dirs_of f t) drecs
        /\ (wf_names f = true ->
            loop_fs (all_files_of f t ++ all_dirs_of f t) f (fs w') (frecs ++ drecs))).
Proof.
  intros Hrun. pose proof (run_cases a os f) as Hc.
  destruct (target_of a os f) as [h|t] eqn:Ht.
  - rewrite Hrun in Hc. injection Hc as _ ->. now left.
  - cbv zeta in Hc. destruct (FS.is_dir f t); cbn [negb] in Hc.
    2:{ rewrite Hrun in Hc. symmetry in Hc.
        apply rejected_missing_end in Hc as (_ & Hf & Hl & _).
        left. rewrite Hf, Hl. now split. }
    destruct (markers_ok t); cbn [negb] in Hc.
    2:{ rewrite Hrun in Hc. injection Hc as _ ->. now left. }
    destruct (confirmed a os); cbn [negb] in Hc.
    2:{ rewrite Hrun in Hc. symmetry in Hc.
        apply declined_end in Hc as (_ & Hf & Hl & _).
        left. rewrite Hf. destruct Hl as [-> | ->]; now split. }
    destruct Hc as (w1 & _ & Hok & Hr). rewrite Hrun in Hr. injection Hr as -> ->.
    unfold engine_ok in Hok. rewrite engine_start_fs, engine_start_log in Hok.
    destruct (all_files_of f t) as [|p files] eqn:Hfiles.
    + destruct Hok as [Hfs Hlog]. left. cbn [fs log say]. now rewrite Hfs, Hlog.
    + destruct Hok as (frecs & drecs & Hlog & HF & HD & Hfs). right.
      exists t, frecs, drecs. cbn [fs log say].
      rewrite Hfiles.
      split; [reflexivity|]. split; [reflexivity|]. split; [discriminate|].
      split; [exact Hlog|]. split; [exact HF|]. split; [exact HD|].
      intros Hwf. apply Hfs. rewrite <- Hfiles. eapply scan_good; eauto.
Qed.

(** Outside the entries reported deleted the file system is as before. *)
Lemma loop_fs_frame l f f' recs q :
  loop_fs l f f' recs -> ~ In q l -> FS.find f' q = FS.find f q.
Proof.
  intros (_ & Hq & Hd) Hn. destruct (Hq q) as [H|[r [Hr Hdel]]]; [assumption|].
  destruct (Hd r q Hr Hdel) as [_ Hin]. contradiction.
Qed.

Lemma node_at_find f f' q :
  FS.find f' q = FS.find f q -> FS.node_at f' q = FS.node_at f q.
Proof. destruct q; simpl; auto. Qed.

(** A run touches only what lies strictly below its target. *)
Lemma run_frame a os f t out w' q :
  wf_names f = true -> target_of a os f = inr t -> run a os f = (out, w') ->
  strictly_below t q = false -> FS.find (fs w') q = FS.find f q.
Proof.
  intros Hwf Ht Hrun Hq. destruct (run_shape _ _ _ Hrun) as [[-> _]|H]; [reflexivity|].
  destruct H as (t' & frecs & drecs & Ht' & _ & _ & _ & _ & _ & Hfs).
  assert (t' = t) by congruence. subst t'.
  eapply loop_fs_frame; [exact (Hfs Hwf)|].
  intros Hin. apply scan_below in Hin. congruence.
Qed.

(* ===================================================================== *)
(** ** The model at work *)
(* ===================================================================== *)

(** Quotes and blanks around the argument are dropped, backslashes are
    separators, [.] segments vanish. *)
Example normalize_path_cleans :
  fst (normalize_path (Ex.os true) "  '/home/u/Adobe\CameraRaw/./Cache2/' "
                      (start Ex.two_files))
  = inr Ex.cache2.
Proof. reflexivity. Qed.

(** [..] is followed on the file system: it leaves the directory a link
    points to, not the directory the link is written in. *)
Example normalize_path_physical :
  fst (normalize_path (Ex.os true) "Adobe/CameraRaw/Cache2/up/../keep.txt"
                      (start Ex.mixed))
  = inr ["home"; "keep.txt"].
Proof. reflexivity. Qed.

(** Without [--path] the target is built from [LOCALAPPDATA]. *)
Example default_target :
  target_of (Ex.no_path true) (Ex.os_local true) Ex.two_files = inr Ex.cache2.
Proof. reflexivity. Qed.

(** An empty [--path] is no path at all. *)
Example empty_path_is_default :
  target_of {| arg_path := Some ""; arg_yes := true |} (Ex.os_local true) Ex.two_files
  = inr Ex.cache2.
Proof. reflexivity. Qed.

(** The scan lists links without entering them; a link counts as what it
    points to. *)
Example scan_of_mixed :
  FS.rglob Ex.mixed Ex.cache2
  = [Ex.cache2 ++ ["a.dat"]; Ex.cache2 ++ ["shortcut"]; Ex.cache2 ++ ["up"]]
  /\ all_files_of Ex.mixed Ex.cache2 = [Ex.cache2 ++ ["a.dat"]; Ex.cache2 ++ ["shortcut"]]
  /\ all_dirs_of Ex.mixed Ex.cache2 = [Ex.cache2 ++ ["up"]].
Proof. repeat split. Qed.

(** The Directory List is ordered by the length of the path string. *)
Example dirs_of_nested :
  all_dirs_of Ex.nested Ex.cache2
  = [Ex.cache2 ++ ["zzzzzzzz"]; Ex.cache2 ++ ["a"; "bb"]; Ex.cache2 ++ ["a"]].
Proof. reflexivity. Qed.

(** A full run: the file is deleted, both links are skipped. *)
Example run_on_mixed :
  log (snd (run (Ex.with_path true) (Ex.os true) Ex.mixed))
  = [(INFO, DeletedFile (Ex.cache2 ++ ["a.dat"]));
     (WARNING, SkippingFile (Ex.cache2 ++ ["shortcut"]));
     (WARNING, SkippingDirectory (Ex.cache2 ++ ["up"]));
     (INFO, Completed)].
Proof. reflexivity. Qed.

(** A directory that kept an entry is not removed, and the run goes on. *)
Example failed_rmdir_is_logged :
  log (snd (run (Ex.with_path true) (Ex.os true)
                (Ex.mixed ++ [(Ex.cache2 ++ ["d"], Dir);
                              (Ex.cache2 ++ ["d"; "dangling"], Link ["nowhere"])])))
  = [(INFO, DeletedFile (Ex.cache2 ++ ["a.dat"]));
     (WARNING, SkippingFile (Ex.cache2 ++ ["shortcut"]));
     (WARNING, SkippingDirectory (Ex.cache2 ++ ["up"]));
     (ERROR, FailedDirectory (Ex.cache2 ++ ["d"]) DirectoryNotEmpty);
     (INFO, Completed)].
Proof. reflexivity. Qed.

(** When the input has ended the prompt raises: the run stops there, with
    an empty log and the file system as it was. *)
Example end_of_input_at_the_prompt :
  let r := run (Ex.with_path false) Ex.os_eof Ex.two_files in
  fst r = inl (Raise EOFError) /\ prompt_shown (snd r) = true
  /\ fs (snd r) = Ex.two_files /\ log (snd r) = [].
Proof. vm_compute. repeat split. Qed.

(** What an earlier run left in the log file is gone once a run starts. *)
Example log_starts_empty :
  old_log (Ex.os true) = Ex.earlier_log
  /\ log (snd (run (Ex.with_path true) (Ex.os true) Ex.only_subdir))
     = [(INFO, NoFilesToDelete)].
Proof. vm_compute. split; reflexivity. Qed.

(** A target in a directory that the process may not search: the
    existence check raises, and that ends the run. *)
Example unsearchable_directory :
  let r := run (Ex.in_locked true) Ex.os_denied Ex.locked_dir in
  fst r = inl (Raise PermissionError) /\ fs (snd r) = Ex.locked_dir.
Proof. vm_compute. split; reflexivity. Qed.

(** A name of 255 characters is looked up and not found; one more, and
    the lookup raises. *)
Example name_max_is_the_limit :
  let n255 := String.concat "" (repeat "aaaaa" 51) in
  stat_error (Ex.os true) Ex.two_files (Ex.cache2 ++ [n255]) = None
  /\ stat_error (Ex.os true) Ex.two_files (Ex.cache2 ++ [String "a" n255]) = Some NameTooLong
  /\ stat_error (Ex.os true) Ex.two_files (Ex.home ++ ["nope"; String "a" n255]) = None.
Proof. vm_compute. repeat split. Qed.

(* ===================================================================== *)
(** ** Records, entries and clean runs *)
(* ===================================================================== *)

Lemma nodupb_spec l : nodupb l = true -> NoDup l.
Proof.
  induction l as [|p l IH]; simpl; [constructor|].
  rewrite andb_true_iff, negb_true_iff. intros [Hn Hl]. constructor; [|auto].
  intros Hin. assert (existsb (path_eqb p) l = true); [|congruence].
  apply existsb_exists. exists p. split; [assumption|]. now apply path_eqb_true.
Qed.

Lemma wf_fs_names f : wf_fs f = true -> wf_names f = true.
Proof. unfold wf_fs. rewrite andb_true_iff. tauto. Qed.

Lemma wf_fs_nodup f : wf_fs f = true -> NoDup (FS.keys f).
Proof. unfold wf_fs. rewrite andb_true_iff. intros [_ H]. now apply nodupb_spec. Qed.

Lemma file_or_dir f p : FS.is_file f p = true -> FS.is_dir f p = true -> False.
Proof. unfold FS.is_file, FS.is_dir. destruct (FS.stat f p) as [[| |tg]|]; discriminate. Qed.

(** Each entry is scanned once. *)
Lemma scan_nodup f t :
  NoDup (FS.keys f) -> NoDup (all_files_of f t ++ all_dirs_of f t).
Proof.
  intros Hk. assert (Hr : NoDup (FS.rglob f t)) by now apply NoDup_filter.
  apply NoDup_app.
  - now apply NoDup_filter.
  - eapply Permutation_NoDup; [symmetry; apply sort_desc_perm|]. now apply NoDup_filter.
  - intros p Hf Hd. apply in_all_files in Hf as [_ Hf]. apply in_all_dirs in Hd as [_ Hd].
    eapply file_or_dir; eauto.
Qed.

Lemma entry_record_path p r : entry_record p r -> record_path r = Some p.
Proof.
  intros [[->|[->|[e ->]]]|[->|[->|[e ->]]]]; reflexivity.
Qed.

Lemma deleted_record_path r q : deleted_path r = Some q -> record_path r = Some q.
Proof.
  destruct r as [[| |] []]; cbv [record_path deleted_path snd]; congruence.
Qed.

Lemma Forall2_In_r (A B : Type) (R : A -> B -> Prop) l l' y :
  Forall2 R l l' -> In y l' -> exists x, In x l /\ R x y.
Proof.
  induction 1 as [|a b l l' Hab HF IH]; simpl; [tauto|].
  intros [<-|Hin]; [eauto|]. destruct (IH Hin) as [x [Hx HR]]. eauto.
Qed.

Lemma Forall2_In_l (A B : Type) (R : A -> B -> Prop) l l' x :
  Forall2 R l l' -> In x l -> exists y, In y l' /\ R x y.
Proof.
  induction 1 as [|a b l l' Hab HF IH]; simpl; [tauto|].
  intros [<-|Hin]; [eauto|]. destruct (IH Hin) as [y [Hy HR]]. eauto.
Qed.

(** With each entry scanned once, an entry has one record. *)
Lemma record_unique l recs :
  Forall2 entry_record l recs -> NoDup l ->
  forall r1 r2 p, In r1 recs -> In r2 recs ->
                  record_path r1 = Some p -> record_path r2 = Some p -> r1 = r2.
Proof.
  induction 1 as [|q r l recs Hr HF IH]; intros Hnd r1 r2 p H1 H2 Hp1 Hp2.
  - destruct H1.
  - apply NoDup_cons_iff in Hnd as [Hq Hnd].
    assert (Hother : forall r', In r' recs -> record_path r' = Some q -> False).
    { intros r' Hin Hp. destruct (@Forall2_In_r _ _ _ _ _ _ HF Hin) as [x [Hx Hrx]].
      apply entry_record_path in Hrx. assert (x = q) by congruence. subst x. auto. }
    apply entry_record_path in Hr.
    destruct H1 as [<-|H1], H2 as [<-|H2]; [reflexivity| | |eauto].
    + exfalso. apply (Hother r2 H2). congruence.
    + exfalso. apply (Hother r1 H1). congruence.
Qed.

Lemma scan_records f t frecs drecs :
  Forall2 file_record (all_files_of f t) frecs ->
  Forall2 dir_record (all_dirs_of f t) drecs ->
  Forall2 entry_record (all_files_of f t ++ all_dirs_of f t) (frecs ++ drecs).
Proof.
  intros HF HD. apply Forall2_app.
  - eapply Forall2_impl; [|exact HF]. intros p r H. now left.
  - eapply Forall2_impl; [|exact HD]. intros p r H. now right.
Qed.

Lemma attempts_In r a l : In r l -> attempt_of r = Some a -> In a (attempts l).
Proof.
  induction l as [|r' l IH]; simpl; [tauto|].
  intros [->|Hin] Ha.
  - rewrite Ha. now left.
  - destruct (attempt_of r'); [right|]; auto.
Qed.

(** An entry logged as skipped is still there after the run. *)
Lemma skipped_stays a os f out w' r p :
  wf_fs f = true -> run a os f = (out, w') ->
  In r (log w') -> record_path r = Some p -> deleted_path r = None ->
  FS.find (fs w') p = FS.find f p.
Proof.
  intros Hwf Hrun Hin Hp Hd. destruct (run_shape _ _ _ Hrun) as [[-> _]|H]; [reflexivity|].
  destruct H as (t & frecs & drecs & Ht & _ & _ & Hlog & HF & HD & Hfs).
  specialize (Hfs (wf_fs_names _ Hwf)). destruct Hfs as (_ & Hq & _).
  destruct (Hq p) as [H|[r' [Hr' Hdel]]]; [assumption|]. exfalso.
  assert (Hr : In r (frecs ++ drecs)).
  { rewrite Hlog, app_assoc in Hin. apply in_app_or in Hin as [Hin|[<-|[]]]; [assumption|].
    discriminate Hp. }
  assert (r' = r).
  { eapply record_unique; [apply scan_records; eauto| | | | |]; eauto.
    - apply scan_nodup. now apply wf_fs_nodup.
    - now apply deleted_record_path. }
  congruence.
Qed.

(** A run that passes the Safety Gate and is confirmed returns normally,
    with the scan total in the summary. *)
Lemma run_proceeds a os f t out w' :
  target_of a os f = inr t -> accepted f t = true -> confirmed a os = true ->
  run a os f = (out, w') ->
  out = inr tt
  /\ files_deleted_row w' = Some (Str.of_nat (List.length (all_files_of f t)))
  /\ exists w1, engine_ok (all_files_of f t) (all_dirs_of f t) (engine_start a os f t) w1
                /\ fs w' = fs w1 /\ log w' = log w1.
Proof.
  intros Ht Hacc Hconf Hrun. pose proof (run_cases a os f) as Hc.
  rewrite Ht in Hc. cbv zeta in Hc. unfold accepted in Hacc.
  apply andb_true_iff in Hacc as [Hacc Hm]. apply andb_true_iff in Hacc as [_ Hd].
  rewrite Hd, Hm, Hconf in Hc. cbn [negb] in Hc.
  destruct Hc as (w1 & _ & Hok & Hr). rewrite Hrun in Hr. injection Hr as -> ->.
  split; [reflexivity|]. split.
  - unfold files_deleted_row, summary_rows, say. cbn [console].
    rewrite last_last. reflexivity.
  - exists w1. repeat split. exact Hok.
Qed.

Lemma no_failures_app w l1 l2 :
  log w = l1 ++ l2 -> no_failures w = true ->
  forallb (fun r => negb (is_failure r)) l1 = true
  /\ forallb (fun r => negb (is_failure r)) l2 = true.
Proof.
  unfold no_failures. intros ->. rewrite forallb_app. apply andb_true_iff.
Qed.

Lemma clean_file_records files frecs :
  Forall2 file_record files frecs ->
  forallb (fun r => negb (is_failure r)) frecs = true ->
  forall p, In p files -> In (INFO, DeletedFile p) frecs.
Proof.
  intros HF Hc p Hp. destruct (Forall2_In_l _ HF Hp) as [r [Hr Hrec]].
  rewrite forallb_forall in Hc. specialize (Hc r Hr).
  destruct Hrec as [->|[->|[e ->]]]; try discriminate. exact Hr.
Qed.

Lemma clean_dir_records dirs drecs :
  Forall2 dir_record dirs drecs ->
  forallb (fun r => negb (is_failure r)) drecs = true ->
  forall p, In p dirs -> In (INFO, DeletedDirectory p) drecs.
Proof.
  intros HD Hc p Hp. destruct (Forall2_In_l _ HD Hp) as [r [Hr Hrec]].
  rewrite forallb_forall in Hc. specialize (Hc r Hr).
  destruct Hrec as [->|[->|[e ->]]]; try discriminate. exact Hr.
Qed.

(** After a run that found files and logged no failure, every scanned
    entry is gone. *)
Lemma clean_run_deletes a os f t out w' :
  wf_names f = true ->
  target_of a os f = inr t -> accepted f t = true -> confirmed a os = true ->
  all_files_of f t <> [] ->
  run a os f = (out, w') -> no_failures w' = true ->
  sub (fs w') f
  /\ forall p, In p (all_files_of f t ++ all_dirs_of f t) -> FS.find (fs w') p = None.
Proof.
  intros Hwf Ht Hacc Hconf Hne Hrun Hclean.
  destruct (run_proceeds _ _ _ Ht Hacc Hconf Hrun) as (_ & _ & w1 & Hok & Hfs & Hlog).
  unfold engine_ok in Hok. rewrite engine_start_fs, engine_start_log in Hok.
  destruct (all_files_of f t) as [|p0 files] eqn:Hfiles; [congruence|].
  destruct Hok as (frecs & drecs & Hl & HF & HD & Hloop).
  rewrite <- Hfiles in *.
  assert (Hg : forall p, In p (all_files_of f t ++ all_dirs_of f t) -> good f p)
    by (eapply scan_good; eauto).
  specialize (Hloop Hg). rewrite <- Hfs in Hloop. destruct Hloop as (Hsub & _ & Hdel).
  split; [assumption|].
  rewrite <- Hlog in Hl. rewrite app_nil_l in Hl.
  destruct (no_failures_app _ _ _ Hl Hclean) as [Hcf Hrest].
  rewrite forallb_app in Hrest. apply andb_true_iff in Hrest as [Hcd _].
  intros p Hp. apply in_app_or in Hp as [Hp|Hp].
  - pose proof (clean_file_records HF Hcf _ Hp) as Hin.
    apply (Hdel (INFO, DeletedFile p) p); [apply in_or_app; now left | reflexivity].
  - pose proof (clean_dir_records HD Hcd _ Hp) as Hin.
    apply (Hdel (INFO, DeletedDirectory p) p); [apply in_or_app; now right | reflexivity].
Qed.

Lemma rglob_sub f' f t p : sub f' f -> In p (FS.rglob f' t) -> In p (FS.rglob f t).
Proof.
  intros Hs. rewrite !in_rglob. intros (Hk & Hb & Hr).
  destruct (In_find _ _ Hk) as [n Hn]. apply Hs in Hn.
  repeat split; [eapply find_In; eauto | assumption | eapply reachable_sub; eauto].
Qed.

Lemma no_elements (A : Type) (l : list A) : (forall x, ~ In x l) -> l = [].
Proof. destruct l as [|x l]; [reflexivity|]. intros H. destruct (H x). now left. Qed.

(** A later scan of a file system from which every scanned entry was
    deleted finds no file and no directory. *)
Lemma rescan_empty f' f t :
  sub f' f ->
  (forall p, In p (all_files_of f t ++ all_dirs_of f t) -> FS.find f' p = None) ->
  all_files_of f' t = [] /\ all_dirs_of f' t = [].
Proof.
  intros Hs Hgone.
  assert (Hnone : forall p, In p (FS.rglob f' t) ->
                            FS.is_file f' p = true \/ FS.is_dir f' p = true -> False).
  { intros p Hp Hk. assert (Hin : In p (all_files_of f t ++ all_dirs_of f t)).
    { apply in_or_app. destruct Hk as [Hk|Hk]; [left|right].
      - apply in_all_files. split; [eapply rglob_sub | eapply is_file_mono]; eauto.
      - apply in_all_dirs. split; [eapply rglob_sub | eapply is_dir_mono]; eauto. }
    apply Hgone in Hin. apply in_rglob in Hp as [Hp _].
    destruct (In_find _ _ Hp) as [n Hn]. congruence. }
  split; apply no_elements; intros p Hp.
  - apply in_all_files in Hp as [Hp Hf]. eauto.
  - apply in_all_dirs in Hp as [Hp Hd]. eauto.
Qed.


(* ===================================================================== *)
(** ** Links that point out of the target *)
(* ===================================================================== *)

(** The lenient walker follows a physical path as written. *)
Lemma walk_plain_lenient f hop : forall rest cur,
  plain f (cur ++ rest) = true -> no_dotdot rest = true ->
  FS.walk f false hop cur rest = inr (cur ++ rest).
Proof.
  induction rest as [|seg rest IH]; intros cur Hp Hn; simpl.
  - now rewrite app_nil_r.
  - simpl in Hn. apply andb_true_iff in Hn as [Hseg Hn].
    apply negb_true_iff in Hseg. rewrite Hseg.
    assert (Hcur : cur ++ seg :: rest = (cur ++ [seg]) ++ rest)
      by (rewrite <- app_assoc; reflexivity).
    assert (Hl : is_link (FS.find f (cur ++ [seg])) = false).
    { rewrite <- node_at_snoc. rewrite plain_spec in Hp. apply Hp.
      rewrite Hcur. apply is_prefix_app. }
    rewrite Hcur in *.
    destruct (FS.find f (cur ++ [seg])) as [[| |tg]|]; try discriminate Hl.
    + destruct rest; [now rewrite app_nil_r | now apply IH].
    + now apply IH.
    + now apply IH.
Qed.

(** Up to a link at the end of a physical path the lenient walker goes
    straight, then it hops to the target of the link. *)
Lemma walk_to_link f hop tg : forall pre cur seg,
  plain f (cur ++ pre) = true -> no_dotdot (pre ++ [seg]) = true ->
  FS.find f ((cur ++ pre) ++ [seg]) = Some (Link tg) ->
  FS.walk f false hop cur (pre ++ [seg]) = hop (tg ++ []).
Proof.
  induction pre as [|x pre IH]; intros cur seg Hp Hn Hf; simpl.
  - simpl in Hn. apply andb_true_iff in Hn as [Hseg _].
    apply negb_true_iff in Hseg. rewrite Hseg.
    rewrite app_nil_r in Hf. now rewrite Hf.
  - simpl in Hn. apply andb_true_iff in Hn as [Hx Hn].
    apply negb_true_iff in Hx. rewrite Hx.
    assert (Hcur : cur ++ x :: pre = (cur ++ [x]) ++ pre)
      by (rewrite <- app_assoc; reflexivity).
    rewrite Hcur in *.
    assert (Hl : is_link (FS.find f (cur ++ [x])) = false).
    { rewrite <- node_at_snoc. rewrite plain_spec in Hp. apply Hp, is_prefix_app. }
    destruct (FS.find f (cur ++ [x])) as [[| |tg']|]; try discriminate Hl.
    + destruct (pre ++ [seg]) eqn:E; [destruct pre; discriminate E|].
      rewrite <- E in *. now apply IH.
    + now apply IH.
    + now apply IH.
Qed.

(** A link whose target is a physical path resolves to that target. *)
Lemma resolve_link f p tg :
  good f p -> no_dotdot p = true ->
  FS.find f p = Some (Link tg) -> plain f tg = true -> no_dotdot tg = true ->
  FS.resolve f p = inr tg.
Proof.
  intros [Hp [Hpl _]] Hn Hf Htg Hntg.
  unfold FS.resolve, FS.realpath, FS.symloop_max.
  rewrite realpath_hops_eq, <- (parent_name Hp).
  rewrite (@walk_to_link f _ tg (parent p) [] (name p)); auto.
  - rewrite app_nil_r, realpath_hops_eq.
    now rewrite walk_plain_lenient.
  - now rewrite parent_name.
  - simpl. now rewrite parent_name.
Qed.

Section LoopSkip.
Variable t : path.
Variable op : filesys -> path -> result filesys.
Variable about : path -> record -> Prop.
Variable body : path -> M unit.
Variable warn : path -> record.

Hypothesis body_step : forall p w,
  exists w' r, body p w = (inr tt, w') /\ step_ok t op about p w w' r.
Hypothesis op_good : forall f p f', good f p -> op f p = inr f' -> f' = FS.remove f p.
Hypothesis body_skip : forall p w rp,
  FS.resolve (fs w) p = inr rp -> is_relative_to rp t = false ->
  exists w', body p w = (inr tt, w') /\ log w' = log w ++ [warn p].

(** A loop logs the warning for every link of its list whose target is a
    physical path that is not below [t]. *)
Lemma for_each_skips p tg : forall l w w',
  (forall q, In q l -> good (fs w) q) -> NoDup l -> In p l ->
  no_dotdot p = true -> FS.find (fs w) p = Some (Link tg) ->
  plain (fs w) tg = true -> no_dotdot tg = true -> is_relative_to tg t = false ->
  for_each l body w = (inr tt, w') -> In (warn p) (log w').
Proof.
  induction l as [|q l IH]; intros w w' Hg Hnd Hin Hn Hf Hpl Hntg Hrel Hrun; [destruct Hin|].
  apply NoDup_cons_iff in Hnd as [Hq Hnd]. simpl in Hrun. unfold bind in Hrun.
  destruct (path_eq_dec q p) as [->|Hne].
  - assert (Hres : FS.resolve (fs w) p = inr tg).
    { apply resolve_link; auto; apply Hg; now left. }
    destruct (body_skip _ _ Hres Hrel) as (w1 & Hb & Hlog). rewrite Hb in Hrun.
    destruct (for_each_spec body body_step op_good l w1) as (w2 & recs & Hfe & [Hl _] & _).
    assert (w2 = w') by congruence. subst w2.
    rewrite Hl, Hlog. apply in_or_app. left. apply in_or_app. right. now left.
  - destruct Hin as [Hin|Hin]; [congruence|].
    destruct (body_step q w) as (w1 & r & Hb & _ & _ & Hcase). rewrite Hb in Hrun.
    assert (Hstep : fs w1 = fs w \/ fs w1 = FS.remove (fs w) q).
    { destruct Hcase as [[_ Hfs]|[_ [Hop _]]]; [now left|right].
      eapply op_good; eauto. apply Hg. now left. }
    assert (Hsub : sub (fs w1) (fs w)).
    { destruct Hstep as [->| ->]; [apply sub_refl | apply sub_remove]. }
    apply (IH w1 w'); auto.
    + intros q' Hq'. eapply good_sub; eauto. apply Hg. now right.
    + destruct Hstep as [->| ->]; [assumption|]. now rewrite find_remove_other.
    + eapply plain_sub; eauto.
Qed.
End LoopSkip.

Lemma delete_file_skip t p w rp :
  FS.resolve (fs w) p = inr rp -> is_relative_to rp t = false ->
  delete_file t p w
  = (inr tt, {| fs := fs w; log := log w ++ [(WARNING, SkippingFile p)];
                console := console w |}).
Proof. intros Hr Hrel. run_monad. now rewrite Hr, Hrel. Qed.

Lemma delete_dir_skip t p w rp :
  FS.resolve (fs w) p = inr rp -> is_relative_to rp t = false ->
  delete_dir t p w
  = (inr tt, {| fs := fs w; log := log w ++ [(WARNING, SkippingDirectory p)];
                console := console w |}).
Proof. intros Hr Hrel. run_monad. now rewrite Hr, Hrel. Qed.

(** The two loops of the engine, one after the other. *)
Lemma deletion_engine_loops t files dirs w w' :
  files <> [] -> deletion_engine t files dirs w = (inr tt, w') ->
  exists w0 wa wb,
    fs w0 = fs w
    /\ for_each files (delete_file t) w0 = (inr tt, wa)
    /\ for_each dirs (delete_dir t) wa = (inr tt, wb)
    /\ log w' = log wb ++ [(INFO, Completed)].
Proof.
  intros Hne He. unfold deletion_engine in He. destruct files as [|p files]; [congruence|].
  cbn [List.length Nat.eqb] in He. unfold bind, console_print, logger in He.
  match type of He with
  | context [for_each (p :: files) _ ?w0] =>
      destruct (files_loop_spec t (p :: files) w0) as (wa & frecs & Hf & _ & _);
      exists w0, wa
  end.
  destruct (dirs_loop_spec t dirs wa) as (wb & drecs & Hd & _ & _).
  rewrite Hf, Hd in He. injection He as <-. exists wb. repeat split; assumption.
Qed.

(** In a run that reaches the loops, a link of the scan whose target is a
    physical path outside the target is logged as skipped. *)
Lemma links_out_skipped a os f t out w' p tg :
  wf_fs f = true ->
  target_of a os f = inr t -> accepted f t = true -> confirmed a os = true ->
  all_files_of f t <> [] ->
  run a os f = (out, w') ->
  FS.find f p = Some (Link tg) ->
  plain f tg = true -> no_dotdot tg = true -> is_relative_to tg t = false ->
  (In p (all_files_of f t) -> In (WARNING, SkippingFile p) (log w'))
  /\ (In p (all_dirs_of f t) -> In (WARNING, SkippingDirectory p) (log w')).
Proof.
  intros Hwf Ht Hacc Hconf Hne Hrun Hf Hpl Hntg Hrel.
  pose proof (@wf_fs_names f Hwf) as Hnames.
  pose proof (@scan_nodup f t (@wf_fs_nodup f Hwf)) as Hnd.
  pose proof (run_cases a os f) as Hc. rewrite Ht in Hc. cbv zeta in Hc.
  unfold accepted in Hacc.
  apply andb_true_iff in Hacc as [Hacc Hm]. apply andb_true_iff in Hacc as [_ Hd].
  rewrite Hd, Hm, Hconf in Hc. cbn [negb] in Hc.
  destruct Hc as (w1 & He & _ & Hr). rewrite Hrun in Hr. injection Hr as -> ->.
  destruct (deletion_engine_loops _ _ _ Hne He) as (w0 & wa & wb & Hfs0 & Hfl & Hdl & Hlog).
  rewrite engine_start_fs in Hfs0. cbn [log say]. rewrite Hlog.
  assert (Hg : forall q, In q (all_files_of f t ++ all_dirs_of f t) -> good f q)
    by (eapply scan_good; eauto).
  destruct (files_loop_spec t (all_files_of f t) w0) as (wa' & frecs & Hfl' & _ & Hffs).
  assert (wa' = wa) by congruence. subst wa'. rewrite Hfs0 in Hffs.
  destruct Hffs as (Hsub & Hq & Hdel).
  { intros q Hq. apply Hg, in_or_app. now left. }
  destruct (dirs_loop_spec t (all_dirs_of f t) wa) as (wb' & drecs & Hdl' & [Hdlog _] & _).
  assert (wb' = wb) by congruence. subst wb'.
  assert (Hkey : forall q, In q (all_files_of f t ++ all_dirs_of f t) -> no_dotdot q = true).
  { intros q Hq'. eapply wf_names_key; eauto. apply in_scan, in_rglob in Hq'. tauto. }
  split; intros Hin.
  - apply in_or_app. left. rewrite Hdlog. apply in_or_app. left.
    apply (@for_each_skips t FS.unlink file_record (delete_file t)
             (fun q => (WARNING, SkippingFile q)) (@delete_file_step t) unlink_good)
      with (tg := tg) (l := all_files_of f t) (w := w0); auto.
    + intros q w rp H1 H2. eexists. split; [now apply (delete_file_skip _ _ _ H1 H2)|reflexivity].
    + rewrite Hfs0. intros q Hq'. apply Hg, in_or_app. now left.
    + eapply NoDup_app_remove_r; eauto.
    + apply Hkey, in_or_app. now left.
    + now rewrite Hfs0.
    + now rewrite Hfs0.
  - apply in_or_app. left.
    apply (@for_each_skips t FS.rmdir dir_record (delete_dir t)
             (fun q => (WARNING, SkippingDirectory q)) (@delete_dir_step t) rmdir_good)
      with (tg := tg) (l := all_dirs_of f t) (w := wa); auto.
    + intros q w rp H1 H2. eexists. split; [now apply (delete_dir_skip _ _ _ H1 H2)|reflexivity].
    + intros q Hq'. eapply good_sub; eauto. apply Hg, in_or_app. now right.
    + eapply NoDup_app_remove_l; eauto.
    + apply Hkey, in_or_app. now right.
    + destruct (Hq p) as [->|[r [Hr Hdp]]]; [assumption|]. exfalso.
      destruct (Hdel r p Hr Hdp) as [_ Hpf].
      apply in_all_files in Hpf as [_ Hpf]. apply in_all_dirs in Hin as [_ Hin].
      eapply file_or_dir; eauto.
    + eapply plain_sub; eauto.
Qed.
(* ===================================================================== *)
(** ** The properties of the specification *)
(* ===================================================================== *)

(** C1. A run changes no entry outside the tree below its resolved target
    (the target itself included).  An entry logged as skipped is left as it
    was.  In any state, both loop bodies skip with a warning an entry whose
    resolved path is not below the target, and delete only after the check
    passed.  And in a run that reaches the loops, every link of the scan
    that points to a physical path outside the target is logged as skipped
    and is left in place. *)
Theorem C1_nothing_outside_target a os f t out w' :
  wf_fs f = true -> target_of a os f = inr t -> run a os f = (out, w') ->
  (forall q, strictly_below t q = false -> FS.node_at (fs w') q = FS.node_at f q)
  /\ (forall p, In (WARNING, SkippingFile p) (log w')
                \/ In (WARNING, SkippingDirectory p) (log w') ->
                FS.find (fs w') p = FS.find f p)
  /\ (forall w p rp,
        FS.resolve (fs w) p = inr rp -> is_relative_to rp t = false ->
        delete_file t p w
        = (inr tt, {| fs := fs w; log := log w ++ [(WARNING, SkippingFile p)];
                      console := console w |})
        /\ delete_dir t p w
           = (inr tt, {| fs := fs w; log := log w ++ [(WARNING, SkippingDirectory p)];
                         console := console w |}))
  /\ (forall w p w1,
        delete_file t p w = (inr tt, w1) \/ delete_dir t p w = (inr tt, w1) ->
        fs w1 <> fs w ->
        exists rp, FS.resolve (fs w) p = inr rp /\ is_relative_to rp t = true)
  /\ (accepted f t = true -> confirmed a os = true -> all_files_of f t <> [] ->
      forall p tg,
        FS.find f p = Some (Link tg) ->
        plain f tg = true -> no_dotdot tg = true -> is_relative_to tg t = false ->
        (In p (all_files_of f t) ->
         In (WARNING, SkippingFile p) (log w') /\ FS.find (fs w') p = Some (Link tg))
        /\ (In p (all_dirs_of f t) ->
            In (WARNING, SkippingDirectory p) (log w')
            /\ FS.find (fs w') p = Some (Link tg))).
Proof.
  intros Hwf Ht Hrun.
  assert (Hskip : forall p, In (WARNING, SkippingFile p) (log w')
                            \/ In (WARNING, SkippingDirectory p) (log w') ->
                            FS.find (fs w') p = FS.find f p).
  { intros p [H|H]; eapply skipped_stays; eauto. }
  split; [|split; [exact Hskip|split; [|split]]].
  - intros q Hq. apply node_at_find. eapply run_frame; eauto. now apply wf_fs_names.
  - intros w p rp Hr Hrel. split; [eapply delete_file_skip | eapply delete_dir_skip]; eauto.
  - intros w p w1 [H|H] Hne.
    + destruct (delete_file_step t p w) as (w2 & r & He & _ & _ & Hcase).
      assert (w2 = w1) by congruence. subst w2.
      destruct Hcase as [[_ Hfs]|[_ [_ Hres]]]; [congruence|assumption].
    + destruct (delete_dir_step t p w) as (w2 & r & He & _ & _ & Hcase).
      assert (w2 = w1) by congruence. subst w2.
      destruct Hcase as [[_ Hfs]|[_ [_ Hres]]]; [congruence|assumption].
  - intros Hacc Hconf Hne p tg Hf Hpl Hn Hrel.
    destruct (@links_out_skipped a os f t out w' p tg Hwf Ht Hacc Hconf Hne Hrun Hf Hpl
                Hn Hrel) as [Hfile Hdir].
    split; intros Hin.
    + split; [now apply Hfile|]. rewrite <- Hf. apply Hskip. left. now apply Hfile.
    + split; [now apply Hdir|]. rewrite <- Hf. apply Hskip. right. now apply Hdir.
Qed.

Lemma C1_witness :
  (wf_fs Ex.mixed = true
   /\ target_of (Ex.with_path true) (Ex.os true) Ex.mixed = inr Ex.cache2)
  /\ FS.node_at (fs (snd (run (Ex.with_path true) (Ex.os true) Ex.mixed))) ["home"; "keep.txt"]
     = FS.node_at Ex.mixed ["home"; "keep.txt"]
  /\ In (WARNING, SkippingFile (Ex.cache2 ++ ["shortcut"]))
        (log (snd (run (Ex.with_path true) (Ex.os true) Ex.mixed))).
Proof.
  split; [split; vm_compute; reflexivity|].
  destruct (@C1_nothing_outside_target (Ex.with_path true) (Ex.os true) Ex.mixed Ex.cache2
              (fst (run (Ex.with_path true) (Ex.os true) Ex.mixed))
              (snd (run (Ex.with_path true) (Ex.os true) Ex.mixed)))
    as (H1 & _ & _ & _ & H5).
  - vm_compute. reflexivity.
  - vm_compute. reflexivity.
  - vm_compute. reflexivity.
  - split.
    + apply H1. vm_compute. reflexivity.
    + assert (Hacc : accepted Ex.mixed Ex.cache2 = true) by (vm_compute; reflexivity).
      assert (Hconf : confirmed (Ex.with_path true) (Ex.os true) = true)
        by (vm_compute; reflexivity).
      assert (Hne : all_files_of Ex.mixed Ex.cache2 <> []) by (vm_compute; discriminate).
      assert (Hf : FS.find Ex.mixed (Ex.cache2 ++ ["shortcut"])
                   = Some (Link ["home"; "keep.txt"])) by (vm_compute; reflexivity).
      assert (Hpl : plain Ex.mixed ["home"; "keep.txt"] = true) by (vm_compute; reflexivity).
      assert (Hn : no_dotdot ["home"; "keep.txt"] = true) by (vm_compute; reflexivity).
      assert (Hrel : is_relative_to ["home"; "keep.txt"] Ex.cache2 = false)
        by (vm_compute; reflexivity).
      assert (Hin : In (Ex.cache2 ++ ["shortcut"]) (all_files_of Ex.mixed Ex.cache2))
        by (vm_compute; right; left; reflexivity).
      destruct (H5 Hacc Hconf Hne _ _ Hf Hpl Hn Hrel) as [Hfile _].
      exact (proj1 (Hfile Hin)).
Defined.

(** C2: the "Files Deleted" row shows the number of files the scan found.
    On a target that holds one link to a file elsewhere the file is
    skipped, nothing is deleted, and the row still says 1. *)
Theorem C2_row_is_scan_total :
  let r := run (Ex.with_path true) (Ex.os true) Ex.link_out in
  fst r = inr tt
  /\ all_files_of Ex.link_out Ex.cache2 = [Ex.cache2 ++ ["shortcut"]]
  /\ log (snd r) = [(WARNING, SkippingFile (Ex.cache2 ++ ["shortcut"])); (INFO, Completed)]
  /\ fs (snd r) = Ex.link_out
  /\ List.length (filter is_deleted_file (log (snd r))) = 0
  /\ files_deleted_row (snd r) = Some "1".
Proof. vm_compute. repeat split. Qed.

(** C3, as stated, fails twice. After a confirmed run without any failure
    on a target with two files and an empty directory, the target
    directory is still there.  And on a target that holds only an empty
    directory nothing is attempted, so no attempt fails, and the next scan
    still finds the directory. *)
Lemma C3_counterexample :
  let r := run (Ex.with_path true) (Ex.os true) Ex.two_files in
  let r' := run (Ex.with_path true) (Ex.os true) Ex.only_subdir in
  (fst r = inr tt /\ no_failures (snd r) = true
   /\ FS.node_at (fs (snd r)) Ex.cache2 = Some Dir
   /\ FS.node_at (fs (snd r)) Ex.cache2 <> None)
  /\ (fst r' = inr tt /\ no_failures (snd r') = true
      /\ all_dirs_of (fs (snd r')) Ex.cache2 = [Ex.cache2 ++ ["sub"]]
      /\ all_dirs_of (fs (snd r')) Ex.cache2 <> []).
Proof. vm_compute. repeat split; discriminate. Qed.

(** C3, amended. After a confirmed run that found at least one file and
    logged no failure, every file and directory of the scan is gone, so
    that a new scan of the target finds no file and no directory; the
    target directory itself is still there. *)
Theorem C3_clean_run_empties_target a os f t out w' :
  wf_names f = true ->
  target_of a os f = inr t -> accepted f t = true -> confirmed a os = true ->
  all_files_of f t <> [] ->
  run a os f = (out, w') -> no_failures w' = true ->
  out = inr tt
  /\ (forall p, In p (all_files_of f t ++ all_dirs_of f t) -> FS.find (fs w') p = None)
  /\ all_files_of (fs w') t = [] /\ all_dirs_of (fs w') t = []
  /\ FS.node_at (fs w') t = Some Dir.
Proof.
  intros Hwf Ht Hacc Hconf Hne Hrun Hclean.
  destruct (clean_run_deletes _ _ _ Hwf Ht Hacc Hconf Hne Hrun Hclean) as [Hsub Hgone].
  destruct (run_proceeds _ _ _ Ht Hacc Hconf Hrun) as (Hout & _).
  destruct (rescan_empty t Hsub Hgone) as [Hf Hd].
  repeat split; try assumption.
  assert (Hn : FS.node_at (fs w') t = FS.node_at f t).
  { apply node_at_find. eapply run_frame; eauto. apply strictly_below_irrefl. }
  rewrite Hn. apply (target_is_dir _ _ _ Ht). unfold accepted in Hacc.
  apply andb_true_iff in Hacc as [Hacc _]. now apply andb_true_iff in Hacc as [_ Hacc].
Qed.

Lemma C3_witness :
  (wf_names Ex.two_files = true
   /\ target_of (Ex.with_path true) (Ex.os true) Ex.two_files = inr Ex.cache2
   /\ no_failures (snd (run (Ex.with_path true) (Ex.os true) Ex.two_files)) = true)
  /\ all_files_of (fs (snd (run (Ex.with_path true) (Ex.os true) Ex.two_files))) Ex.cache2 = []
  /\ all_dirs_of (fs (snd (run (Ex.with_path true) (Ex.os true) Ex.two_files))) Ex.cache2 = [].
Proof.
  split; [repeat split; vm_compute; reflexivity|].
  destruct (@C3_clean_run_empties_target (Ex.with_path true) (Ex.os true) Ex.two_files
              Ex.cache2
              (fst (run (Ex.with_path true) (Ex.os true) Ex.two_files))
              (snd (run (Ex.with_path true) (Ex.os true) Ex.two_files)))
    as (_ & _ & H1 & H2 & _).
  - reflexivity.
  - reflexivity.
  - reflexivity.
  - reflexivity.
  - vm_compute. discriminate.
  - vm_compute. reflexivity.
  - vm_compute. reflexivity.
  - split; assumption.
Defined.



(** C5. In the order of the attempts that the log reports, the attempt on
    a directory [D] comes after the attempt on every file, and after the
    attempt on every entry below [D]; the string of an entry below [D] is
    strictly longer than the string of [D], which is what the descending
    sort of the Directory List goes by. *)
Theorem C5_descendants_first a os f i j D k X :
  let order := attempts (log (snd (run a os f))) in
  nth_error order i = Some (DirEntry, D) ->
  nth_error order j = Some (k, X) ->
  k = FileEntry \/ strictly_below D X = true ->
  j < i /\ (strictly_below D X = true -> len_str D < len_str X).
Proof.
  intros order Hi Hj Hk. subst order.
  destruct (run a os f) as [out w'] eqn:Hrun. cbn [snd] in *.
  destruct (run_shape _ _ _ Hrun) as [[_ He]|H].
  { rewrite He in Hi. destruct i; discriminate. }
  destruct H as (t & frecs & drecs & Ht & _ & _ & Hlog & HF & HD & _).
  rewrite Hlog, !attempts_app, (attempts_files HF), (attempts_dirs HD) in Hi, Hj.
  cbn [attempts attempt_of snd] in Hi, Hj. rewrite app_nil_r in Hi, Hj.
  set (files := all_files_of f t) in *. set (dirs := all_dirs_of f t) in *.
  set (n := List.length (map (pair FileEntry) files)).
  assert (Hin : n <= i).
  { destruct (Nat.le_gt_cases n i) as [H|H]; [assumption|].
    rewrite nth_error_app1 in Hi by assumption.
    rewrite nth_error_map in Hi. destruct (nth_error files i); discriminate. }
  rewrite nth_error_app2 in Hi by assumption. fold n in Hi.
  rewrite nth_error_map in Hi.
  destruct (nth_error dirs (i - n)) as [D'|] eqn:HD'; [|discriminate].
  injection Hi as ->.
  assert (HDne : D <> []).
  { assert (HinD : In D dirs) by (eapply nth_error_In; eauto).
    apply in_all_dirs in HinD as [HinD _]. apply in_rglob in HinD as (_ & Hb & _).
    now apply strictly_below_nonempty in Hb. }
  split; [|intros Hb; now apply len_str_below].
  destruct (Nat.le_gt_cases n j) as [Hnj|Hnj]; [|lia].
  rewrite nth_error_app2 in Hj by assumption. fold n in Hj.
  rewrite nth_error_map in Hj.
  destruct (nth_error dirs (j - n)) as [X'|] eqn:HX'; [|discriminate].
  injection Hj as <- ->. destruct Hk as [Hk|Hk]; [discriminate|].
  assert (j - n < i - n); [|lia].
  eapply (@sort_desc_order _ (fun p => String.length (str p))); eauto.
  now apply len_str_below.
Qed.

Lemma C5_witness :
  (nth_error (attempts (log (snd (run (Ex.with_path true) (Ex.os true) Ex.nested)))) 3
   = Some (DirEntry, Ex.cache2 ++ ["a"])
   /\ nth_error (attempts (log (snd (run (Ex.with_path true) (Ex.os true) Ex.nested)))) 2
      = Some (DirEntry, Ex.cache2 ++ ["a"; "bb"]))
  /\ 2 < 3.
Proof.
  split; [split; vm_compute; reflexivity|].
  apply (@C5_descendants_first (Ex.with_path true) (Ex.os true) Ex.nested 3 2
           (Ex.cache2 ++ ["a"]) DirEntry (Ex.cache2 ++ ["a"; "bb"])).
  - vm_compute. reflexivity.
  - vm_compute. reflexivity.
  - right. reflexivity.
Defined.




(** When the resolved target does not exist or is not a directory and the
    lookup raises nothing, the run prints the path-not-found error and
    exits with status 1; no prompt was shown, the file system is untouched
    and nothing was logged. *)
Lemma missing_target_rejected a os f t :
  target_of a os f = inr t ->
  FS.exists_ f t = false \/ FS.is_dir f t = false ->
  stat_error os f t = None ->
  let w' := say (say (start f) (target_line t)) (Printed (msg_not_found t)) in
  run a os f = (inl (SysExit 1), w')
  /\ prompt_shown w' = false /\ fs w' = f /\ log w' = [].
Proof.
  intros Ht Hno He.
  assert (Hd : FS.is_dir f t = false).
  { destruct Hno as [H|H]; [|assumption].
    destruct (FS.is_dir f t) eqn:E; [|reflexivity].
    apply is_dir_exists in E. congruence. }
  pose proof (run_cases a os f) as Hc. rewrite Ht in Hc. cbv zeta in Hc.
  rewrite Hd in Hc. cbn [negb] in Hc. unfold rejected_missing in Hc.
  rewrite He in Hc. repeat split; assumption || reflexivity.
Qed.

(** When the lookup of the resolved target raises, the error leaves the
    existence check and ends the run: no message, no exit status. *)
Lemma lookup_error_ends_run a os f t e :
  target_of a os f = inr t -> stat_error os f t = Some e ->
  FS.exists_ f t = false
  /\ run a os f = (inl (Raise e), say (start f) (target_line t)).
Proof.
  intros Ht He. pose proof (stat_error_some _ _ _ He) as Hs.
  assert (Hd : FS.is_dir f t = false) by (unfold FS.is_dir; now rewrite Hs).
  split; [unfold FS.exists_; now rewrite Hs|].
  pose proof (run_cases a os f) as Hc. rewrite Ht in Hc. cbv zeta in Hc.
  rewrite Hd in Hc. cbn [negb] in Hc. unfold rejected_missing in Hc.
  now rewrite He in Hc.
Qed.

(** C7: a target that does not exist is not always turned away with the
    path-not-found error and status 1.  For a name of 300 characters in
    an existing directory the existence check itself raises the [OSError]
    of the lookup: the run ends in that exception right after the target
    line, without the not-found message and without [sys.exit(1)].  No
    prompt is shown and nothing is deleted. *)
Theorem C7_unreachable_target_raises :
  let t := Ex.cache2 ++ [Ex.long_name] in
  let r := run (Ex.too_long false) (Ex.os true) Ex.two_files in
  target_of (Ex.too_long false) (Ex.os true) Ex.two_files = inr t
  /\ FS.exists_ Ex.two_files t = false
  /\ r = (inl (Raise NameTooLong), say (start Ex.two_files) (target_line t))
  /\ fst r <> inl (SysExit 1)
  /\ ~ In (Printed (msg_not_found t)) (console (snd r))
  /\ prompt_shown (snd r) = false
  /\ fs (snd r) = Ex.two_files.
Proof.
  cbv zeta.
  assert (Ht : target_of (Ex.too_long false) (Ex.os true) Ex.two_files
               = inr (Ex.cache2 ++ [Ex.long_name]))
    by (vm_compute; reflexivity).
  assert (He : stat_error (Ex.os true) Ex.two_files
                 (Ex.cache2 ++ [Ex.long_name]) = Some NameTooLong)
    by (vm_compute; reflexivity).
  destruct (lookup_error_ends_run _ _ _ Ht He) as [Hx Hr].
  rewrite Hr. cbn [fst snd]. repeat split; try assumption; try discriminate.
  cbn [console say start app]. intros [H|[H|[]]]; [discriminate|].
  apply (f_equal (fun i => match i with
                           | Printed m => String.length m
                           | _ => 0
                           end)) in H.
  vm_compute in H. discriminate.
Qed.

(** C8. When the confirmation prompt is shown (no [--yes]) and the user
    answers no, the run exits with status 0, the file system is untouched
    and the log, whatever an earlier run left in it, holds exactly one
    record, the cancellation. *)
Theorem C8_declined_run a os f out w' :
  arg_yes a = false -> reply os = Some false ->
  run a os f = (out, w') -> prompt_shown w' = true ->
  out = inl (SysExit 0) /\ fs w' = f
  /\ log w' = [(INFO, Cancelled)]
  /\ List.length (filter is_cancellation (log w')) = 1.
Proof.
  intros Hy Ha Hrun Hp. pose proof (run_cases a os f) as Hc.
  destruct (target_of a os f) as [h|t].
  - rewrite Hrun in Hc. injection Hc as _ ->. discriminate Hp.
  - cbv zeta in Hc. destruct (FS.is_dir f t); cbn [negb] in Hc.
    2:{ rewrite Hrun in Hc. unfold rejected_missing in Hc.
        destruct (stat_error os f t); injection Hc as _ ->; discriminate Hp. }
    destruct (markers_ok t); cbn [negb] in Hc.
    2:{ rewrite Hrun in Hc. injection Hc as _ ->. discriminate Hp. }
    unfold confirmed, answer, declined in Hc. rewrite Hy, Ha in Hc.
    cbn [orb negb] in Hc.
    rewrite Hrun in Hc. injection Hc as -> ->. repeat split.
Qed.

Lemma C8_witness :
  (arg_yes (Ex.with_path false) = false /\ reply (Ex.os false) = Some false
   /\ old_log (Ex.os false) = Ex.earlier_log
   /\ prompt_shown (snd (run (Ex.with_path false) (Ex.os false) Ex.two_files)) = true)
  /\ fst (run (Ex.with_path false) (Ex.os false) Ex.two_files) = inl (SysExit 0)
  /\ fs (snd (run (Ex.with_path false) (Ex.os false) Ex.two_files)) = Ex.two_files
  /\ log (snd (run (Ex.with_path false) (Ex.os false) Ex.two_files)) = [(INFO, Cancelled)].
Proof.
  split; [repeat split; vm_compute; reflexivity|].
  destruct (@C8_declined_run (Ex.with_path false) (Ex.os false) Ex.two_files
              (fst (run (Ex.with_path false) (Ex.os false) Ex.two_files))
              (snd (run (Ex.with_path false) (Ex.os false) Ex.two_files)))
    as (H1 & H2 & H3 & _).
  - reflexivity.
  - reflexivity.
  - vm_compute. reflexivity.
  - vm_compute. reflexivity.
  - repeat split; assumption.
Defined.



(** C10. Without [--path] and with neither [LOCALAPPDATA] nor [APPDATA]
    set, the run ends in an uncaught [TypeError] right after the warning
    panel, not in an exit with status 1. *)
Theorem C10_no_environment_is_type_error a os f :
  arg_path a = None ->
  getenv os "LOCALAPPDATA" = None -> getenv os "APPDATA" = None ->
  run a os f = (inl (Raise TypeError), start f)
  /\ fst (run a os f) <> inl (SysExit 1).
Proof.
  intros Hp Hl Ha. pose proof (run_cases a os f) as Hc.
  assert (Ht : target_of a os f = inl (Raise TypeError)).
  { unfold target_of, determine_target. rewrite Hp, Hl, Ha. reflexivity. }
  rewrite Ht in Hc. rewrite Hc. split; [reflexivity|discriminate].
Qed.

Lemma C10_witness :
  (arg_path (Ex.no_path true) = None
   /\ getenv (Ex.os true) "LOCALAPPDATA" = None /\ getenv (Ex.os true) "APPDATA" = None)
  /\ run (Ex.no_path true) (Ex.os true) Ex.two_files
     = (inl (Raise TypeError), start Ex.two_files).
Proof.
  split; [repeat split|].
  apply (@C10_no_environment_is_type_error (Ex.no_path true) (Ex.os true) Ex.two_files);
    reflexivity.
Defined.


(* ===================================================================== *)
(** ** Further properties of the code *)
(* ===================================================================== *)

(** *** The sort of the Directory List (line 84) *)

Lemma with_key_insert (A : Type) (key : A -> nat) k x l :
  with_key key k (insert_desc key x l)
  = (if Nat.eqb (key x) k then [x] else []) ++ with_key key k l.
Proof.
  unfold with_key. induction l as [|y l IH]; simpl.
  - destruct (Nat.eqb (key x) k); reflexivity.
  - destruct (Nat.leb (key y) (key x)) eqn:E; simpl.
    + destruct (Nat.eqb (key x) k); reflexivity.
    + apply Nat.leb_gt in E. rewrite IH.
      destruct (Nat.eqb (key y) k) eqn:Ey; [|reflexivity].
      apply Nat.eqb_eq in Ey.
      assert (Hx : Nat.eqb (key x) k = false) by (apply Nat.eqb_neq; lia).
      rewrite Hx. reflexivity.
Qed.

(** X1. The sort of line 84 loses and adds nothing, orders the keys from
    large to small, and keeps elements with equal keys in the order they
    had. *)
Theorem X1_sort_is_stable (A : Type) (key : A -> nat) (l : list A) :
  Permutation (sort_desc key l) l
  /\ StronglySorted (key_order key) (sort_desc key l)
  /\ forall k, with_key key k (sort_desc key l) = with_key key k l.
Proof.
  split; [apply sort_desc_perm|]. split; [apply sort_desc_sorted|].
  intros k. induction l as [|x l IH]; [reflexivity|].
  simpl. rewrite with_key_insert, IH. unfold with_key. simpl.
  destruct (Nat.eqb (key x) k); reflexivity.
Qed.

(** *** The target (lines 14-18 and 59-64) *)



(** X3. Without a usable [--path] (none, or an empty one) determining the
    target ends in a [TypeError] exactly when [LOCALAPPDATA] is unset or
    empty and [APPDATA] is unset; the run then stops right after the
    warning panel. *)
Theorem X3_type_error_iff a os f :
  opt_truthy (arg_path a) = false ->
  (target_of a os f = inl (Raise TypeError)
   <-> (getenv os "LOCALAPPDATA" = None \/ getenv os "LOCALAPPDATA" = Some "")
       /\ getenv os "APPDATA" = None)
  /\ (target_of a os f = inl (Raise TypeError) ->
      run a os f = (inl (Raise TypeError), start f)).
Proof.
  intros Hp. split.
  - unfold target_of, determine_target. rewrite Hp. unfold py_or.
    destruct (getenv os "LOCALAPPDATA") as [[|c l]|] eqn:El; cbn [Str.truthy].
    + destruct (getenv os "APPDATA") as [s|] eqn:Ea.
      * split; [|intros [_ H]; discriminate].
        unfold Path, resolve. unfold bind at 1. unfold ret at 1.
        match goal with |- context [path_resolve ?p ?w] =>
          unfold path_resolve, bind, get_fs, lift; destruct (FS.resolve (fs w) p) eqn:E end.
        -- unfold FS.resolve in E.
           match type of E with context [FS.realpath ?x ?y ?z] =>
             destruct (FS.realpath x y z) end; [|discriminate].
           injection E as <-. discriminate.
        -- discriminate.
      * split; [intros _; split; [now right | reflexivity] | reflexivity].
    + split; [|intros [[H|H] _]; discriminate].
      unfold Path, resolve. unfold bind at 1. unfold ret at 1.
      match goal with |- context [path_resolve ?p ?w] =>
        unfold path_resolve, bind, get_fs, lift; destruct (FS.resolve (fs w) p) eqn:E end.
      * unfold FS.resolve in E.
        match type of E with context [FS.realpath ?x ?y ?z] =>
          destruct (FS.realpath x y z) end; [|discriminate].
        injection E as <-. discriminate.
      * discriminate.
    + destruct (getenv os "APPDATA") as [s|] eqn:Ea.
      * split; [|intros [_ H]; discriminate].
        unfold Path, resolve. unfold bind at 1. unfold ret at 1.
        match goal with |- context [path_resolve ?p ?w] =>
          unfold path_resolve, bind, get_fs, lift; destruct (FS.resolve (fs w) p) eqn:E end.
        -- unfold FS.resolve in E.
           match type of E with context [FS.realpath ?x ?y ?z] =>
             destruct (FS.realpath x y z) end; [|discriminate].
           injection E as <-. discriminate.
        -- discriminate.
      * split; [intros _; split; [now left | reflexivity] | reflexivity].
  - intros Ht. pose proof (run_cases a os f) as Hc. now rewrite Ht in Hc.
Qed.

Lemma X3_witness :
  opt_truthy (arg_path (Ex.no_path true)) = false
  /\ run (Ex.no_path true) Ex2.os_empty_local Ex.two_files
     = (inl (Raise TypeError), start Ex.two_files).
Proof.
  split; [reflexivity|].
  destruct (@X3_type_error_iff (Ex.no_path true) Ex2.os_empty_local Ex.two_files eq_refl)
    as [H1 H2].
  apply H2, H1. split; [right|]; reflexivity.
Defined.

(** *** The deletion engine (lines 86-120) *)

(** X4. A run that got past the Safety Gate and the confirmation and
    returned normally has attempted each file of the File List and then
    each directory of the Directory List exactly once, in list order,
    whatever failed on the way (nothing at all when the File List is
    empty), and the summary is the last thing it printed, its "Files
    Deleted" row being the length of the File List. *)
Theorem X4_every_entry_attempted_once a os f t w' :
  target_of a os f = inr t -> accepted f t = true -> confirmed a os = true ->
  run a os f = (inr tt, w') ->
  attempts (log w')
     = match all_files_of f t with
       | [] => []
       | _ :: _ => map (pair FileEntry) (all_files_of f t)
                   ++ map (pair DirEntry) (all_dirs_of f t)
       end
  /\ last (console w') (Printed "")
     = summary_table os t (List.length (all_files_of f t)).
Proof.
  intros Ht Hacc Hconf Hrun. pose proof (run_cases a os f) as Hc.
  rewrite Ht in Hc. cbv zeta in Hc. unfold accepted in Hacc.
  apply andb_true_iff in Hacc as [Hacc Hm]. apply andb_true_iff in Hacc as [_ Hd].
  rewrite Hd, Hm, Hconf in Hc. cbn [negb] in Hc.
  destruct Hc as (w1 & _ & Hok & Hr). rewrite Hrun in Hr. injection Hr as ->.
  split; [|cbn [console say]; apply last_last].
  cbn [log say]. unfold engine_ok in Hok. rewrite engine_start_log in Hok.
  destruct (all_files_of f t) as [|p files] eqn:Hfiles.
  - destruct Hok as [_ ->]. reflexivity.
  - destruct Hok as (frecs & drecs & -> & HF & HD & _).
    rewrite app_nil_l, !attempts_app, (attempts_files HF), (attempts_dirs HD).
    cbn [attempts attempt_of snd]. now rewrite app_nil_r.
Qed.

Lemma X4_witness :
  (target_of (Ex.with_path true) (Ex.os true) Ex.mixed = inr Ex.cache2
   /\ accepted Ex.mixed Ex.cache2 = true
   /\ fst (run (Ex.with_path true) (Ex.os true) Ex.mixed) = inr tt)
  /\ attempts (log (snd (run (Ex.with_path true) (Ex.os true) Ex.mixed)))
     = [(FileEntry, Ex.cache2 ++ ["a.dat"]); (FileEntry, Ex.cache2 ++ ["shortcut"]);
        (DirEntry, Ex.cache2 ++ ["up"])].
Proof.
  split; [repeat split; vm_compute; reflexivity|].
  assert (Ht : target_of (Ex.with_path true) (Ex.os true) Ex.mixed = inr Ex.cache2)
    by (vm_compute; reflexivity).
  assert (Hacc : accepted Ex.mixed Ex.cache2 = true) by (vm_compute; reflexivity).
  assert (Hconf : confirmed (Ex.with_path true) (Ex.os true) = true)
    by (vm_compute; reflexivity).
  assert (Hrun : run (Ex.with_path true) (Ex.os true) Ex.mixed
                 = (inr tt, snd (run (Ex.with_path true) (Ex.os true) Ex.mixed)))
    by (vm_compute; reflexivity).
  exact (proj1 (@X4_every_entry_attempted_once _ _ _ _ _ Ht Hacc Hconf Hrun)).
Defined.

Lemma reported_deleted_spec l q :
  reported_deleted l q = true <-> exists r, In r l /\ deleted_path r = Some q.
Proof.
  unfold reported_deleted. rewrite existsb_exists. split.
  - intros [r [Hr H]]. exists r. split; [assumption|].
    destruct (deleted_path r) as [p|]; [|discriminate].
    apply path_eqb_true in H. now subst.
  - intros [r [Hr H]]. exists r. split; [assumption|]. rewrite H.
    now apply path_eqb_true.
Qed.

Lemma deleted_is_attempt r q : deleted_path r = Some q -> attempt_of r <> None.
Proof.
  destruct r as [[| |] []]; cbv [deleted_path attempt_of snd]; congruence.
Qed.

(** X5. The log tells what a run removed: after any run, on a file system
    with proper names, an entry reported deleted in the log is gone, and
    every other path holds exactly what it held before. *)
Theorem X5_log_tells_what_is_gone a os f out w' q :
  wf_names f = true -> run a os f = (out, w') ->
  FS.find (fs w') q = if reported_deleted (log w') q then None else FS.find f q.
Proof.
  intros Hwf Hrun. destruct (run_shape _ _ _ Hrun) as [[Hfs Hatt]|H].
  - destruct (reported_deleted (log w') q) eqn:E; [|now rewrite Hfs].
    apply reported_deleted_spec in E as [r [Hr Hd]].
    destruct (attempt_of r) as [x|] eqn:Ea.
    + pose proof (attempts_In _ _ Hr Ea) as Hin. rewrite Hatt in Hin. destruct Hin.
    + now apply deleted_is_attempt in Hd.
  - destruct H as (t & frecs & drecs & _ & _ & _ & Hlog & _ & _ & Hfs).
    destruct (Hfs Hwf) as (_ & Hq & Hd).
    destruct (reported_deleted (log w') q) eqn:E.
    + apply reported_deleted_spec in E as [r [Hr Hdel]].
      rewrite Hlog, app_assoc in Hr. apply in_app_or in Hr as [Hr|[<-|[]]].
      * now apply (Hd r q).
      * discriminate Hdel.
    + destruct (Hq q) as [H|[r [Hr Hdel]]]; [assumption|].
      assert (reported_deleted (log w') q = true); [|congruence].
      apply reported_deleted_spec. exists r. split; [|assumption].
      rewrite Hlog, app_assoc. apply in_or_app. now left.
Qed.

Lemma X5_witness :
  wf_names Ex.mixed = true
  /\ FS.find (fs (snd (run (Ex.with_path true) (Ex.os true) Ex.mixed))) (Ex.cache2 ++ ["a.dat"])
     = None.
Proof.
  split; [reflexivity|].
  assert (Hwf : wf_names Ex.mixed = true) by (vm_compute; reflexivity).
  rewrite (@X5_log_tells_what_is_gone (Ex.with_path true) (Ex.os true) Ex.mixed _ _
             (Ex.cache2 ++ ["a.dat"]) Hwf (surjective_pairing _)).
  vm_compute. reflexivity.
Defined.

Section LoopKeeps.
Variable t : path.
Variable op : filesys -> path -> result filesys.
Variable about : path -> record -> Prop.
Variable body : path -> M unit.
Variable Inv : filesys -> Prop.

Hypothesis body_step : forall p w,
  exists w' r, body p w = (inr tt, w') /\ step_ok t op about p w w' r.
Hypothesis op_good : forall f p f', good f p -> op f p = inr f' -> f' = FS.remove f p.
Hypothesis op_keeps : forall f p f', good f p -> Inv f -> op f p = inr f' -> Inv f'.

(** What every successful system call keeps, the loop keeps. *)
Lemma for_each_keeps : forall l w w',
  (forall p, In p l -> good (fs w) p) -> Inv (fs w) ->
  for_each l body w = (inr tt, w') -> Inv (fs w').
Proof.
  induction l as [|p l IH]; intros w w' Hg Hi Hrun.
  - injection Hrun as <-. exact Hi.
  - simpl in Hrun. unfold bind in Hrun.
    destruct (body_step p w) as (w1 & r & Hb & _ & _ & Hcase). rewrite Hb in Hrun.
    assert (Hgp : good (fs w) p) by (apply Hg; now left).
    apply (IH w1 w'); [| |exact Hrun].
    + intros q Hq. destruct Hcase as [[_ ->]|[_ [Hop _]]]; [apply Hg; now right|].
      rewrite (op_good Hgp Hop). eapply good_sub; [apply sub_remove|]. apply Hg. now right.
    + destruct Hcase as [[_ ->]|[_ [Hop _]]]; [assumption|]. eapply op_keeps; eauto.
Qed.
End LoopKeeps.

Lemma tree_shaped_spec f :
  tree_shaped f = true <->
  forall q, In q (FS.keys f) -> q <> [] /\ FS.node_at f (parent q) = Some Dir.
Proof.
  unfold tree_shaped, FS.keys. rewrite forallb_forall. split.
  - intros H q Hq. apply in_map_iff in Hq as [e [<- He]]. specialize (H e He).
    apply andb_true_iff in H as [H1 H2]. apply negb_true_iff, path_eqb_false in H1.
    split; [assumption|].
    destruct (FS.node_at f (parent (fst e))) as [[| |tg]|]; congruence.
  - intros H e He. destruct (H (fst e)) as [H1 H2]; [now apply in_map|].
    rewrite H2. apply andb_true_iff. split; [|reflexivity].
    now apply negb_true_iff, path_eqb_false.
Qed.

Lemma keys_remove f p q : In q (FS.keys (FS.remove f p)) <-> In q (FS.keys f) /\ q <> p.
Proof.
  unfold FS.keys, FS.remove. rewrite !in_map_iff. split.
  - intros [e [<- He]]. apply filter_In in He as [He Hne].
    apply negb_true_iff, path_eqb_false in Hne. split; [eauto | assumption].
  - intros [[e [<- He]] Hne]. exists e. split; [reflexivity|].
    apply filter_In. split; [assumption|]. now apply negb_true_iff, path_eqb_false.
Qed.

Lemma node_at_remove f p d : d <> p -> FS.node_at (FS.remove f p) d = FS.node_at f d.
Proof.
  intros H. apply node_at_find. apply find_remove_other. congruence.
Qed.

(** Removing an entry in which nothing sits keeps the tree. *)
Lemma tree_shaped_remove f p :
  tree_shaped f = true ->
  (forall q, In q (FS.keys f) -> parent q <> p) ->
  tree_shaped (FS.remove f p) = true.
Proof.
  rewrite !tree_shaped_spec. intros H Hno q Hq.
  apply keys_remove in Hq as [Hq Hne]. destruct (H q Hq) as [H1 H2].
  split; [assumption|]. rewrite node_at_remove; [assumption|]. now apply Hno.
Qed.

Lemma unlink_keeps_tree f p f' :
  good f p -> tree_shaped f = true -> FS.unlink f p = inr f' -> tree_shaped f' = true.
Proof.
  intros Hg Ht. unfold FS.unlink.
  destruct (FS.locate f p) as [e|q] eqn:E; [discriminate|].
  apply locate_good in E; auto. subst q. destruct Hg as [Hp _].
  destruct (FS.find f p) as [[| |tg]|] eqn:Ef; try discriminate;
    intros H; injection H as <-; apply tree_shaped_remove; auto;
    intros q Hq Hpar; apply (proj1 (tree_shaped_spec f)) in Hq; auto;
    destruct Hq as [_ Hd]; rewrite Hpar in Hd;
    destruct p; [congruence| simpl in Hd; congruence | congruence | simpl in Hd; congruence].
Qed.

Lemma rmdir_keeps_tree f p f' :
  good f p -> tree_shaped f = true -> FS.rmdir f p = inr f' -> tree_shaped f' = true.
Proof.
  intros Hg Ht. unfold FS.rmdir.
  destruct (FS.locate f p) as [e|q] eqn:E; [discriminate|].
  apply locate_good in E; auto. subst q.
  destruct (FS.find f p) as [[| |tg]|] eqn:Ef; try discriminate.
  destruct (FS.has_children f p) eqn:Hc; [discriminate|].
  intros H. injection H as <-. apply tree_shaped_remove; auto.
  intros q Hq Hpar. pose proof Hq as Hq'.
  apply (proj1 (tree_shaped_spec f)) in Hq'; auto. destruct Hq' as [Hne _].
  assert (FS.has_children f p = true); [|congruence].
  unfold FS.has_children. apply existsb_exists.
  unfold FS.keys in Hq. apply in_map_iff in Hq as [e [He Hin]].
  exists e. split; [assumption|]. rewrite He, <- Hpar.
  apply strictly_below_parent; [assumption | apply is_prefix_refl].
Qed.

(** The two loops of the engine, with what surrounds them. *)
Lemma deletion_engine_parts t files dirs w w' :
  files <> [] -> deletion_engine t files dirs w = (inr tt, w') ->
  exists w0 wa wb,
    fs w0 = fs w /\ prompt_shown w0 = prompt_shown w
    /\ for_each files (delete_file t) w0 = (inr tt, wa)
    /\ for_each dirs (delete_dir t) wa = (inr tt, wb)
    /\ fs w' = fs wb /\ prompt_shown w' = prompt_shown wb.
Proof.
  intros Hne He. unfold deletion_engine in He. destruct files as [|p files]; [congruence|].
  cbn [List.length Nat.eqb] in He. unfold bind, console_print, logger in He.
  match type of He with
  | context [for_each (p :: files) _ ?w0] =>
      destruct (files_loop_spec t (p :: files) w0) as (wa & frecs & Hf & _ & _);
      exists w0, wa
  end.
  destruct (dirs_loop_spec t dirs wa) as (wb & drecs & Hd & _ & _).
  rewrite Hf, Hd in He. injection He as <-. exists wb.
  split; [reflexivity|]. split.
  { unfold prompt_shown. cbn [console]. rewrite !existsb_app. simpl.
    now rewrite !orb_false_r. }
  split; [assumption|]. split; [assumption|]. split; [reflexivity|].
  unfold prompt_shown. cbn [console]. rewrite !existsb_app. simpl.
  now rewrite !orb_false_r.
Qed.

(** In a tree every ancestor of an entry is a directory. *)
Lemma tree_ancestors f : tree_shaped f = true ->
  forall r d n, FS.find f (d ++ r) = Some n -> r <> [] -> FS.node_at f d = Some Dir.
Proof.
  intros Ht. induction r as [|x r IH] using rev_ind; intros d n Hf Hr; [congruence|].
  assert (Hk : In (d ++ r ++ [x]) (FS.keys f)) by (eapply find_In; eauto).
  apply (proj1 (tree_shaped_spec f) Ht) in Hk as [_ Hp].
  rewrite app_assoc, parent_snoc in Hp.
  destruct r as [|y r].
  - now rewrite app_nil_r in Hp.
  - destruct (d ++ y :: r) eqn:E; [now destruct d|]. rewrite <- E in Hp.
    assert (Hfind : FS.find f (d ++ y :: r) = Some Dir).
    { rewrite E in *. exact Hp. }
    eapply IH; [exact Hfind|discriminate].
Qed.

(** X6. The run never removes a directory in which something is left, and
    never leaves an entry without its directories: if before the run every
    entry sits in a directory, then after it every entry that is left
    still does, and all the directories above it are still there. *)
Theorem X6_tree_is_kept a os f out w' :
  wf_names f = true -> tree_shaped f = true -> run a os f = (out, w') ->
  tree_shaped (fs w') = true
  /\ forall q n d, FS.find (fs w') q = Some n -> strictly_below d q = true ->
                   FS.node_at (fs w') d = Some Dir.
Proof.
  intros Hwf Htree Hrun.
  assert (Hgoal : tree_shaped (fs w') = true).
  { pose proof (run_cases a os f) as Hc.
    destruct (target_of a os f) as [h|t] eqn:Ht.
    { rewrite Hrun in Hc. injection Hc as _ ->. exact Htree. }
    cbv zeta in Hc. destruct (FS.is_dir f t); cbn [negb] in Hc.
    2:{ rewrite Hrun in Hc. symmetry in Hc.
        apply rejected_missing_end in Hc as (_ & Hf & _). now rewrite Hf. }
    destruct (markers_ok t); cbn [negb] in Hc.
    2:{ rewrite Hrun in Hc. injection Hc as _ ->. exact Htree. }
    destruct (confirmed a os); cbn [negb] in Hc.
    2:{ rewrite Hrun in Hc. symmetry in Hc.
        apply declined_end in Hc as (_ & Hf & _). now rewrite Hf. }
    destruct Hc as (w1 & He & Hok & Hr). rewrite Hrun in Hr. injection Hr as _ ->.
    cbn [fs say].
    destruct (all_files_of f t) as [|p0 files] eqn:Hfiles.
    { destruct Hok as [-> _]. now rewrite engine_start_fs. }
    rewrite <- Hfiles in *.
    assert (Hne : all_files_of f t <> []) by (rewrite Hfiles; discriminate).
    destruct (deletion_engine_parts _ _ _ Hne He)
      as (w0 & wa & wb & Hfs0 & _ & Hfl & Hdl & -> & _).
    rewrite engine_start_fs in Hfs0.
    assert (Hg : forall q, In q (all_files_of f t ++ all_dirs_of f t) -> good f q)
      by (eapply scan_good; eauto).
    destruct (files_loop_spec t (all_files_of f t) w0) as (wa' & frecs & Hfl' & _ & Hffs).
    assert (wa' = wa) by congruence. subst wa'. rewrite Hfs0 in Hffs.
    destruct Hffs as (Hsub & _ & _).
    { intros q Hq. apply Hg, in_or_app. now left. }
    assert (Hta : tree_shaped (fs wa) = true).
    { apply (@for_each_keeps t FS.unlink file_record (delete_file t)
               (fun x => tree_shaped x = true) (@delete_file_step t) unlink_good
               unlink_keeps_tree (all_files_of f t) w0 wa); auto.
      - rewrite Hfs0. intros q Hq. apply Hg, in_or_app. now left.
      - now rewrite Hfs0. }
    apply (@for_each_keeps t FS.rmdir dir_record (delete_dir t)
             (fun x => tree_shaped x = true) (@delete_dir_step t) rmdir_good
             rmdir_keeps_tree (all_dirs_of f t) wa wb); auto.
    intros q Hq. eapply good_sub; eauto. apply Hg, in_or_app. now right. }
  split; [assumption|]. intros q n d Hq Hd.
  apply strictly_below_spec in Hd as [r [Hr ->]].
  exact (@tree_ancestors (fs w') Hgoal r d n Hq Hr).
Qed.

Lemma X6_witness :
  (wf_names Ex.nested = true /\ tree_shaped Ex.nested = true)
  /\ tree_shaped (fs (snd (run (Ex.with_path true) (Ex.os true) Ex.nested))) = true.
Proof.
  split; [split; vm_compute; reflexivity|].
  assert (Hwf : wf_names Ex.nested = true) by (vm_compute; reflexivity).
  assert (Ht : tree_shaped Ex.nested = true) by (vm_compute; reflexivity).
  exact (proj1 (@X6_tree_is_kept (Ex.with_path true) (Ex.os true) Ex.nested _ _ Hwf Ht
                  (surjective_pairing _))).
Defined.

(** *** The confirmation (lines 75-80) *)

Lemma delete_file_prompt t p w w' :
  delete_file t p w = (inr tt, w') -> prompt_shown w' = prompt_shown w.
Proof.
  unfold prompt_shown. run_monad.
  destruct (FS.resolve (fs w) p) as [e|rp].
  - intros H. injection H as <-. cbn [console]. rewrite existsb_app. simpl.
    now rewrite orb_false_r.
  - destruct (is_relative_to rp t); cbn [negb].
    + destruct (FS.unlink (fs w) p) as [e|f'];
        intros H; injection H as <-; cbn [console]; rewrite existsb_app; simpl;
        now rewrite orb_false_r.
    + intros H. injection H as <-. reflexivity.
Qed.

Lemma delete_dir_prompt t p w w' :
  delete_dir t p w = (inr tt, w') -> prompt_shown w' = prompt_shown w.
Proof.
  unfold prompt_shown. run_monad.
  destruct (FS.resolve (fs w) p) as [e|rp].
  - intros H. injection H as <-. reflexivity.
  - destruct (is_relative_to rp t); cbn [negb].
    + destruct (FS.rmdir (fs w) p) as [e|f'];
        intros H; injection H as <-; reflexivity.
    + intros H. injection H as <-. reflexivity.
Qed.

Lemma for_each_prompt (body : path -> M unit) :
  (forall p w w', body p w = (inr tt, w') -> prompt_shown w' = prompt_shown w) ->
  forall l w w', for_each l body w = (inr tt, w') -> prompt_shown w' = prompt_shown w.
Proof.
  intros Hb. induction l as [|p l IH]; intros w w' H.
  - injection H as <-. reflexivity.
  - simpl in H. unfold bind in H. destruct (body p w) as [[h|[]] w1] eqn:E; [discriminate|].
    rewrite (IH _ _ H). eapply Hb; eauto.
Qed.

(** X7. With [--yes] the user is never prompted, whatever the run meets,
    and the answer the user would give changes nothing. *)
Theorem X7_yes_never_prompts a os f out w' :
  arg_yes a = true -> run a os f = (out, w') ->
  prompt_shown w' = false
  /\ forall b, run a (with_answer os b) f = run a os f.
Proof.
  intros Hy Hrun. split.
  - pose proof (run_cases a os f) as Hc.
    destruct (target_of a os f) as [h|t] eqn:Ht.
    { rewrite Hrun in Hc. injection Hc as _ ->. reflexivity. }
    cbv zeta in Hc. destruct (FS.is_dir f t); cbn [negb] in Hc.
    2:{ rewrite Hrun in Hc. unfold rejected_missing in Hc.
        destruct (stat_error os f t); injection Hc as _ ->; reflexivity. }
    destruct (markers_ok t); cbn [negb] in Hc.
    2:{ rewrite Hrun in Hc. injection Hc as _ ->. reflexivity. }
    unfold confirmed, engine_start in Hc. rewrite Hy in Hc. cbn [orb negb] in Hc.
    destruct Hc as (w1 & He & Hok & Hr). rewrite Hrun in Hr. injection Hr as _ ->.
    assert (H1 : prompt_shown w1 = false).
    { destruct (all_files_of f t) as [|p0 files] eqn:Hfiles.
      - unfold deletion_engine in He. cbn [List.length Nat.eqb] in He.
        unfold bind, console_print, logger in He. injection He as <-. reflexivity.
      - rewrite <- Hfiles in *.
        assert (Hne : all_files_of f t <> []) by (rewrite Hfiles; discriminate).
        destruct (deletion_engine_parts _ _ _ Hne He)
          as (w0 & wa & wb & _ & Hp0 & Hfl & Hdl & _ & ->).
        rewrite (@for_each_prompt _ (@delete_dir_prompt t) _ _ _ Hdl).
        rewrite (@for_each_prompt _ (@delete_file_prompt t) _ _ _ Hfl).
        rewrite Hp0. reflexivity. }
    unfold prompt_shown, say in *. cbn [console]. rewrite existsb_app, H1. reflexivity.
  - intros b. destruct a as [p y]. simpl in Hy. subst y. reflexivity.
Qed.

Lemma X7_witness :
  arg_yes (Ex.with_path true) = true
  /\ prompt_shown (snd (run (Ex.with_path true) (Ex.os false) Ex.mixed)) = false.
Proof.
  split; [reflexivity|].
  exact (proj1 (@X7_yes_never_prompts (Ex.with_path true) (Ex.os false) Ex.mixed _ _
                  eq_refl (surjective_pairing _))).
Defined.

(** *** Stripping the argument (line 15) *)

Lemma str_app_assoc (a b c : string) : ((a ++ b) ++ c = a ++ (b ++ c))%string.
Proof. induction a as [|x a IH]; simpl; [reflexivity|now rewrite IH]. Qed.

Lemma str_app_nil (a : string) : (a ++ "" = a)%string.
Proof. induction a as [|x a IH]; simpl; [reflexivity|now rewrite IH]. Qed.

Lemma rev_onto_app s : forall acc, Str.rev_onto s acc = (Str.rev s ++ acc)%string.
Proof.
  unfold Str.rev. induction s as [|c s IH]; intros acc; simpl; [reflexivity|].
  rewrite (IH (String c acc)), (IH (String c "")), str_app_assoc. reflexivity.
Qed.

Lemma rev_cons c s : Str.rev (String c s) = (Str.rev s ++ String c "")%string.
Proof. unfold Str.rev at 1. simpl. apply rev_onto_app. Qed.

Lemma rev_app a b : Str.rev (a ++ b) = (Str.rev b ++ Str.rev a)%string.
Proof.
  induction a as [|c a IH]; simpl.
  - now rewrite str_app_nil.
  - now rewrite !rev_cons, IH, str_app_assoc.
Qed.

Lemma rev_rev s : Str.rev (Str.rev s) = s.
Proof.
  induction s as [|c s IH]; [reflexivity|].
  rewrite rev_cons, rev_app, IH. reflexivity.
Qed.

Lemma all_chars_app test a b :
  all_chars test (a ++ b) = all_chars test a && all_chars test b.
Proof.
  induction a as [|c a IH]; simpl; [reflexivity|]. now rewrite IH, andb_assoc.
Qed.

Lemma all_chars_rev test s : all_chars test (Str.rev s) = all_chars test s.
Proof.
  induction s as [|c s IH]; [reflexivity|].
  rewrite rev_cons, all_chars_app, IH. simpl. rewrite andb_true_r. apply andb_comm.
Qed.

Lemma lstrip_all drop l x :
  all_chars drop l = true -> Str.lstrip drop (l ++ x) = Str.lstrip drop x.
Proof.
  induction l as [|c l IH]; simpl; [reflexivity|].
  rewrite andb_true_iff. intros [-> H]. auto.
Qed.

Lemma lstrip_kept drop x : starts_with drop x = false -> Str.lstrip drop x = x.
Proof. destruct x as [|c x]; simpl; [reflexivity|]. now intros ->. Qed.

Lemma lstrip_dropped drop l : all_chars drop l = true -> Str.lstrip drop l = "".
Proof.
  intros H. rewrite <- (str_app_nil l). now rewrite lstrip_all.
Qed.

(** What [strip] leaves of a string wrapped in characters it drops. *)
Lemma strip_wrapped drop l m r :
  all_chars drop l = true -> all_chars drop r = true -> ends_kept drop m = true ->
  Str.strip drop (l ++ m ++ r) = m.
Proof.
  intros Hl Hr Hm. unfold ends_kept in Hm.
  apply andb_true_iff in Hm as [H1 H2]. apply negb_true_iff in H1, H2.
  unfold Str.strip. rewrite lstrip_all by assumption.
  destruct m as [|c m].
  - simpl. rewrite (lstrip_dropped drop r Hr). reflexivity.
  - rewrite (lstrip_kept drop (String c m ++ r)) by exact H1.
    rewrite rev_app, lstrip_all by now rewrite all_chars_rev.
    rewrite lstrip_kept by assumption. apply rev_rev.
Qed.

Lemma strip_kept drop s : ends_kept drop s = true -> Str.strip drop s = s.
Proof.
  intros H. rewrite <- (strip_wrapped drop "" s "" eq_refl eq_refl H) at 2.
  simpl. now rewrite str_app_nil.
Qed.

Lemma starts_kept_wrapped (drop keep : ascii -> bool) a m b :
  (forall c, keep c = true -> drop c = false) ->
  all_chars keep a = true -> all_chars keep b = true ->
  starts_with drop m = false -> starts_with drop (a ++ m ++ b) = false.
Proof.
  intros Hk Ha Hb Hm. destruct a as [|c a]; simpl.
  - destruct m as [|c m]; simpl; [|exact Hm].
    destruct b as [|c b]; simpl; [reflexivity|].
    simpl in Hb. apply andb_true_iff in Hb as [Hb _]. auto.
  - simpl in Ha. apply andb_true_iff in Ha as [Ha _]. auto.
Qed.

Lemma ends_kept_wrapped (drop keep : ascii -> bool) a m b :
  (forall c, keep c = true -> drop c = false) ->
  all_chars keep a = true -> all_chars keep b = true ->
  ends_kept drop m = true -> ends_kept drop (a ++ m ++ b) = true.
Proof.
  intros Hk Ha Hb Hm. unfold ends_kept in *.
  apply andb_true_iff in Hm as [H1 H2]. apply negb_true_iff in H1, H2.
  apply andb_true_iff. split; apply negb_true_iff.
  - eapply starts_kept_wrapped; eauto.
  - rewrite !rev_app, str_app_assoc.
    eapply starts_kept_wrapped; eauto; now rewrite all_chars_rev.
Qed.

Lemma ends_kept_weaken (drop drop' : ascii -> bool) s :
  (forall c, drop' c = true -> drop c = true) ->
  ends_kept drop s = true -> ends_kept drop' s = true.
Proof.
  intros Hd. unfold ends_kept. rewrite !andb_true_iff, !negb_true_iff.
  assert (Hs : forall x, starts_with drop x = false -> starts_with drop' x = false).
  { intros [|c x]; simpl; [reflexivity|]. intros H.
    destruct (drop' c) eqn:E; [|reflexivity]. apply Hd in E. congruence. }
  intros [H1 H2]. split; auto.
Qed.

Lemma is_char_eq d c : Str.is_char d c = true -> c = d.
Proof. unfold Str.is_char. intros H. apply Ascii.eqb_eq in H. congruence. Qed.

Lemma plain_ends_kept s : plain_ends s = true -> ends_kept is_wrapping s = true.
Proof.
  assert (H : forall u, starts_with is_plain_char u = true ->
                        starts_with is_wrapping u = false).
  { intros [|c u]; [discriminate|]. unfold starts_with, is_plain_char.
    intros Hc. apply andb_prop in Hc as [_ Hc]. now apply negb_true_iff in Hc. }
  unfold plain_ends, ends_kept. intros Hs. apply andb_prop in Hs as [H1 H2].
  now rewrite (H _ H1), (H _ H2).
Qed.

(** X8. White space around the argument, then double quotes, then single
    quotes do not count: an argument wrapped in them, in this order from
    the outside in, is normalised like the bare argument, as long as the
    bare argument starts and ends with a printable ASCII character that is
    neither a blank nor a quote. *)
Theorem X8_normalize_path_unwraps os s ws1 ws2 dq1 dq2 sq1 sq2 :
  all_chars Str.is_space ws1 = true -> all_chars Str.is_space ws2 = true ->
  all_chars (Str.is_char Str.dquote) dq1 = true ->
  all_chars (Str.is_char Str.dquote) dq2 = true ->
  all_chars (Str.is_char Str.squote) sq1 = true ->
  all_chars (Str.is_char Str.squote) sq2 = true ->
  plain_ends s = true ->
  normalize_path os (ws1 ++ (dq1 ++ (sq1 ++ s ++ sq2) ++ dq2) ++ ws2)
  = normalize_path os s.
Proof.
  intros Hw1 Hw2 Hd1 Hd2 Hs1 Hs2 Hs. apply plain_ends_kept in Hs.
  assert (Hsp : ends_kept Str.is_space s = true).
  { eapply ends_kept_weaken; [|exact Hs]. intros c H. unfold is_wrapping. now rewrite H. }
  assert (Hdq : ends_kept (Str.is_char Str.dquote) s = true).
  { eapply ends_kept_weaken; [|exact Hs]. intros c H. unfold is_wrapping.
    rewrite H. now rewrite orb_true_r. }
  assert (Hsq : ends_kept (Str.is_char Str.squote) s = true).
  { eapply ends_kept_weaken; [|exact Hs]. intros c H. unfold is_wrapping.
    rewrite H. now rewrite !orb_true_r. }
  assert (Hsq_sp : forall c, Str.is_char Str.squote c = true -> Str.is_space c = false)
    by (intros c H; apply is_char_eq in H; subst c; reflexivity).
  assert (Hsq_dq : forall c, Str.is_char Str.squote c = true ->
                             Str.is_char Str.dquote c = false)
    by (intros c H; apply is_char_eq in H; subst c; reflexivity).
  assert (Hdq_sp : forall c, Str.is_char Str.dquote c = true -> Str.is_space c = false)
    by (intros c H; apply is_char_eq in H; subst c; reflexivity).
  unfold normalize_path.
  rewrite (strip_wrapped Str.is_space ws1 _ ws2 Hw1 Hw2).
  2:{ apply (@ends_kept_wrapped Str.is_space (Str.is_char Str.dquote) _ _ _
               Hdq_sp Hd1 Hd2).
      apply (@ends_kept_wrapped Str.is_space (Str.is_char Str.squote) _ _ _
               Hsq_sp Hs1 Hs2 Hsp). }
  rewrite (strip_wrapped (Str.is_char Str.dquote) dq1 _ dq2 Hd1 Hd2).
  2:{ apply (@ends_kept_wrapped (Str.is_char Str.dquote) (Str.is_char Str.squote) _ _ _
               Hsq_dq Hs1 Hs2 Hdq). }
  rewrite (strip_wrapped (Str.is_char Str.squote) sq1 _ sq2 Hs1 Hs2 Hsq).
  rewrite (strip_kept _ _ Hsp), (strip_kept _ _ Hdq), (strip_kept _ _ Hsq).
  reflexivity.
Qed.

Lemma X8_witness :
  (plain_ends "/home/u/Adobe/CameraRaw/Cache2" = true
   /\ all_chars Str.is_space (String (Str.char 160) " ") = true)
  /\ normalize_path (Ex.os true)
       (String (Str.char 160) " "
        ++ (String Str.dquote "" ++ ("'" ++ "/home/u/Adobe/CameraRaw/Cache2" ++ "'")
            ++ String Str.dquote "") ++ " ")
     = normalize_path (Ex.os true) "/home/u/Adobe/CameraRaw/Cache2".
Proof.
  split; [split; vm_compute; reflexivity|].
  apply (@X8_normalize_path_unwraps (Ex.os true) "/home/u/Adobe/CameraRaw/Cache2"
           (String (Str.char 160) " ") " "
           (String Str.dquote "") (String Str.dquote "") "'" "'");
    vm_compute; reflexivity.
Defined.

(** *** The identity check (line 71) *)

Lemma prefix_app_l n a b : String.prefix n a = true -> String.prefix n (a ++ b) = true.
Proof.
  revert a. induction n as [|c n IH]; intros a; [destruct (a ++ b)%string; reflexivity|].
  destruct a as [|x a]; simpl; [discriminate|].
  destruct (ascii_dec c x); [auto|discriminate].
Qed.

Lemma contains_app_l n a b : Str.contains n a = true -> Str.contains n (a ++ b) = true.
Proof.
  induction a as [|x a IH].
  - simpl. rewrite orb_false_r. intros H.
    destruct n; [destruct b; reflexivity|discriminate].
  - cbn [Str.contains String.append]. rewrite !orb_true_iff. intros [H|H].
    + left. now apply (@prefix_app_l n (String x a) b).
    + right. auto.
Qed.

Lemma contains_app_r n a b : Str.contains n b = true -> Str.contains n (a ++ b) = true.
Proof.
  intros H. induction a as [|x a IH]; [exact H|].
  cbn [Str.contains String.append]. rewrite IH. apply orb_true_r.
Qed.

(** A needle without the separator that starts a string of the form
    [a/b] starts [a]. *)
Lemma prefix_before_slash n a b :
  all_chars (fun c => negb (Ascii.eqb c Str.slash)) n = true ->
  String.prefix n (a ++ String Str.slash b) = true -> String.prefix n a = true.
Proof.
  revert a. induction n as [|c n IH]; intros a Hn; [destruct a; reflexivity|].
  simpl in Hn. apply andb_true_iff in Hn as [Hc Hn]. apply negb_true_iff in Hc.
  destruct a as [|x a]; simpl.
  - destruct (ascii_dec c Str.slash) as [->|]; [|discriminate].
    now rewrite Ascii.eqb_refl in Hc.
  - destruct (ascii_dec c x); [auto|discriminate].
Qed.

Lemma contains_across_slash n a b :
  n <> EmptyString ->
  all_chars (fun c => negb (Ascii.eqb c Str.slash)) n = true ->
  Str.contains n (a ++ String Str.slash b) = true ->
  Str.contains n a = true \/ Str.contains n b = true.
Proof.
  intros Hne Hn. induction a as [|x a IH].
  - cbn [String.append Str.contains]. rewrite orb_true_iff. intros [H|H]; [|now right].
    destruct n as [|c n]; [congruence|]. exfalso.
    simpl in Hn. apply andb_true_iff in Hn as [Hc _]. apply negb_true_iff in Hc.
    simpl in H. destruct (ascii_dec c Str.slash) as [->|]; [|discriminate].
    now rewrite Ascii.eqb_refl in Hc.
  - cbn [String.append Str.contains]. rewrite !orb_true_iff. intros [H|H].
    + left. left. now apply (@prefix_before_slash n (String x a) b).
    + destruct (IH H) as [H'|H']; [left; now right | now right].
Qed.

Lemma str_cons seg (p : path) :
  str (seg :: p)
  = (String Str.slash seg ++ match p with [] => "" | _ => str p end)%string.
Proof.
  destruct p as [|s p]; [simpl; now rewrite str_app_nil|].
  unfold str. cbn [map String.concat]. reflexivity.
Qed.

Lemma contains_str_iff n (p : path) :
  n <> EmptyString ->
  all_chars (fun c => negb (Ascii.eqb c Str.slash)) n = true ->
  Str.contains n (str p) = true <-> exists seg, In seg p /\ Str.contains n seg = true.
Proof.
  intros Hne Hn. induction p as [|seg p IH].
  - split; [|intros [seg [[] _]]]. intros H. exfalso.
    destruct (@contains_across_slash n "" "" Hne Hn H) as [H'|H'];
      destruct n; simpl in H'; congruence.
  - rewrite str_cons. split.
    + intros H. apply (@contains_across_slash n "" _ Hne Hn) in H as [H|H].
      { destruct n; simpl in H; congruence. }
      destruct p as [|s p].
      * rewrite str_app_nil in H. exists seg. split; [now left|assumption].
      * set (rest := str (s :: p)) in *.
        assert (Hrest : exists b, rest = String Str.slash b).
        { subst rest. rewrite str_cons. eexists. reflexivity. }
        destruct Hrest as [b Hb]. rewrite Hb in H.
        apply (@contains_across_slash n seg b Hne Hn) in H as [H|H].
        -- exists seg. split; [now left|assumption].
        -- assert (Hc : Str.contains n rest = true).
           { rewrite Hb. apply (@contains_app_r n (String Str.slash "") b H). }
           apply IH in Hc as [x [Hx Hcx]]. exists x. split; [now right|assumption].
    + intros [x [[<-|Hx] Hc]].
      * apply (@contains_app_r n (String Str.slash "")). now apply contains_app_l.
      * assert (Hp : Str.contains n (str p) = true) by (apply IH; eauto).
        destruct p as [|s p]; [destruct Hx|].
        apply (@contains_app_r n (String Str.slash seg)). exact Hp.
Qed.

(** X9. The identity check looks at folder names only: a target passes it
    exactly when one of its segments contains [CameraRaw] and one of its
    segments (the same or another, before or after) contains [Cache2]. *)
Theorem X9_markers_in_segments (t : path) :
  markers_ok t = true
  <-> (exists seg, In seg t /\ Str.contains "CameraRaw" seg = true)
      /\ (exists seg, In seg t /\ Str.contains "Cache2" seg = true).
Proof.
  unfold markers_ok. rewrite andb_true_iff.
  rewrite (@contains_str_iff "CameraRaw" t) by (discriminate || reflexivity).
  rewrite (@contains_str_iff "Cache2" t) by (discriminate || reflexivity).
  reflexivity.
Qed.

(** *** The scan (lines 82-83) *)

Lemma below_snoc_cases (cur : path) seg rest d :
  is_prefix d (cur ++ seg :: rest) = true -> strictly_below cur d = true ->
  d = cur ++ [seg] \/ strictly_below (cur ++ [seg]) d = true.
Proof.
  rewrite is_prefix_spec, strictly_below_spec. intros [x Hx] [r [Hr ->]].
  rewrite <- app_assoc in Hx. apply app_inv_head in Hx.
  destruct r as [|y r]; [congruence|]. injection Hx as <- _.
  destruct r as [|z r]; [now left|]. right.
  apply strictly_below_spec. exists (z :: r). split; [discriminate|].
  now rewrite <- app_assoc.
Qed.

(** The strict walker gets through a physical path whose directories all
    exist. *)
Lemma walk_strict_ok f hop : forall rest cur,
  plain f (cur ++ rest) = true -> no_dotdot rest = true ->
  (forall d, is_prefix d (cur ++ rest) = true -> strictly_below cur d = true ->
             d <> cur ++ rest -> FS.find f d = Some Dir) ->
  (rest <> [] -> FS.find f (cur ++ rest) <> None) ->
  FS.walk f true hop cur rest = inr (cur ++ rest).
Proof.
  induction rest as [|seg rest IH]; intros cur Hp Hn Hd Hlast; simpl.
  - now rewrite app_nil_r.
  - simpl in Hn. apply andb_true_iff in Hn as [Hseg Hn].
    apply negb_true_iff in Hseg. rewrite Hseg.
    assert (Hcur : cur ++ seg :: rest = (cur ++ [seg]) ++ rest)
      by (rewrite <- app_assoc; reflexivity).
    assert (Hl : is_link (FS.find f (cur ++ [seg])) = false).
    { rewrite <- node_at_snoc. rewrite plain_spec in Hp. apply Hp.
      rewrite Hcur. apply is_prefix_app. }
    assert (Hbelow : strictly_below cur (cur ++ [seg]) = true).
    { apply strictly_below_spec. exists [seg]. split; [discriminate|reflexivity]. }
    destruct rest as [|s rest].
    + assert (Hex : FS.find f (cur ++ [seg]) <> None) by (apply Hlast; discriminate).
      destruct (FS.find f (cur ++ [seg])) as [[| |tg]|]; try discriminate Hl;
        try reflexivity; congruence.
    + rewrite (Hd (cur ++ [seg])).
      * rewrite Hcur. apply IH; rewrite <- ?Hcur; auto.
        -- intros d H1 H2 H3. apply Hd; auto.
           apply strictly_below_spec in H2 as [r [Hr ->]].
           apply strictly_below_spec. exists ([seg] ++ r). split; [discriminate|].
           now rewrite <- app_assoc.
        -- intros _. apply Hlast. discriminate.
      * rewrite Hcur. apply is_prefix_app.
      * exact Hbelow.
      * rewrite Hcur. intros H. rewrite <- (app_nil_r (cur ++ [seg])) in H at 1.
        apply app_inv_head in H. discriminate.
Qed.

(** Where the strict walker got through a physical path, the directories
    on the way exist. *)
Lemma walk_strict_dirs f hop : forall rest cur r,
  plain f (cur ++ rest) = true -> no_dotdot rest = true ->
  FS.walk f true hop cur rest = inr r ->
  forall d, is_prefix d (cur ++ rest) = true -> strictly_below cur d = true ->
            d <> cur ++ rest -> FS.find f d = Some Dir.
Proof.
  induction rest as [|seg rest IH]; intros cur r Hp Hn Hw d H1 H2 H3.
  - exfalso. rewrite app_nil_r in *. apply H3. apply is_prefix_antisym; [assumption|].
    now apply strictly_below_prefix.
  - simpl in Hn. apply andb_true_iff in Hn as [Hseg Hn].
    apply negb_true_iff in Hseg. simpl in Hw. rewrite Hseg in Hw.
    assert (Hcur : cur ++ seg :: rest = (cur ++ [seg]) ++ rest)
      by (rewrite <- app_assoc; reflexivity).
    assert (Hl : is_link (FS.find f (cur ++ [seg])) = false).
    { rewrite <- node_at_snoc. rewrite plain_spec in Hp. apply Hp.
      rewrite Hcur. apply is_prefix_app. }
    destruct (@below_snoc_cases cur seg rest d H1 H2) as [->|Hb].
    + destruct (FS.find f (cur ++ [seg])) as [[| |tg]|]; try discriminate; try reflexivity.
      destruct rest; [|discriminate]. congruence.
    + destruct (FS.find f (cur ++ [seg])) as [[| |tg]|] eqn:E; try discriminate.
      * destruct rest; [|discriminate]. exfalso. apply H3.
        apply is_prefix_antisym; [assumption|]. now apply strictly_below_prefix.
      * rewrite Hcur in *. eapply IH; eauto.
Qed.

(** Below an accepted target, a path reached through directories is looked
    up as written. *)
Lemma stat_of_scanned a os f t p :
  wf_names f = true -> target_of a os f = inr t -> FS.is_dir f t = true ->
  In p (FS.rglob f t) -> is_link (FS.find f p) = false ->
  FS.stat f p = FS.find f p.
Proof.
  intros Hwf Ht Hdir Hin Hl.
  destruct (target_plain _ _ _ Ht) as [Hpt Hnt].
  pose proof (@rglob_good f t p Hwf Hpt Hin) as [Hne [Hpp _]].
  apply in_rglob in Hin as (Hk & Hb & Hr).
  assert (Hnp : no_dotdot p = true) by (eapply wf_names_key; eauto).
  assert (Hplain : plain f p = true).
  { rewrite <- (parent_name Hne). apply plain_snoc; [assumption|].
    now rewrite parent_name. }
  assert (Htdir : FS.node_at f t = Some Dir) by (eapply target_is_dir; eauto).
  assert (Htw : FS.walk f true (FS.realpath_hops 39 f true) [] t = inr t).
  { unfold FS.is_dir, FS.stat in Hdir.
    destruct (FS.realpath f true t) as [e|q] eqn:E; [discriminate|].
    pose proof E as E'. apply realpath_plain in E'; auto. subst q.
    unfold FS.realpath, FS.symloop_max in E. now rewrite realpath_hops_eq in E. }
  assert (Hw : FS.walk f true (FS.realpath_hops 39 f true) [] p = inr p).
  { apply (@walk_strict_ok f (FS.realpath_hops 39 f true) p []); auto.
    - intros d H1 H2 H3. simpl in H1, H3.
      assert (Hd0 : d <> []) by now apply strictly_below_nonempty in H2.
      destruct (@is_prefix_comparable d t p H1 (@strictly_below_prefix t p Hb)) as [H|H].
      + destruct (path_eq_dec d t) as [->|Hdt].
        * destruct t; [congruence|exact Htdir].
        * apply (@walk_strict_dirs f (FS.realpath_hops 39 f true) t [] t Hpt Hnt Htw d);
            auto.
      + destruct (path_eq_dec t d) as [<-|Hdt].
        * destruct t; [congruence|exact Htdir].
        * rewrite reachable_spec in Hr. apply Hr.
          -- unfold strictly_below. rewrite H. simpl.
             now apply negb_true_iff, path_eqb_false.
          -- unfold strictly_below. rewrite H1. simpl.
             now apply negb_true_iff, path_eqb_false.
    - intros _. simpl. destruct (@In_find f p Hk) as [n Hn]. congruence. }
  unfold FS.stat, FS.realpath, FS.symloop_max. rewrite realpath_hops_eq, Hw.
  destruct p; [congruence|reflexivity].
Qed.

(** *** Running twice *)





(** *** What the prompt and the environment decide *)

Lemma respects_bind (A B : Type) (c : M A) (k : A -> M B) :
  respects c -> (forall x, respects (k x)) -> respects (bind c k).
Proof.
  intros Hc Hk w v Hwv. unfold bind. destruct (Hc w v Hwv) as [H1 H2].
  destruct (c w) as [[h|x] w1], (c v) as [[h'|x'] v1]; simpl in H1, H2;
    try discriminate.
  - split; [simpl; congruence | exact H2].
  - injection H1 as <-. now apply Hk.
Qed.

Lemma respects_console_print i : respects (console_print i).
Proof. intros w v [Hf Hl]. split; [reflexivity|]. split; assumption. Qed.

Lemma respects_logger l m : respects (logger l m).
Proof.
  intros w v [Hf Hl]. split; [reflexivity|]. split; [assumption|].
  cbn [snd logger log]. now rewrite Hl.
Qed.

Lemma respects_for_each (body : path -> M unit) l :
  (forall p, respects (body p)) -> respects (for_each l body).
Proof.
  intros Hb. induction l as [|p l IH]; [intros w v H; split; [reflexivity|exact H]|].
  simpl. apply respects_bind; auto.
Qed.

Lemma respects_delete_file t p : respects (delete_file t p).
Proof.
  intros w v [Hf Hl]. unfold agree. run_monad. rewrite Hf.
  destruct (FS.resolve (fs v) p) as [e|rp]; cbv beta iota zeta;
    cbn [fst snd fs log]; rewrite ?Hl; [repeat split; congruence|].
  destruct (is_relative_to rp t); cbv beta iota zeta;
    cbn [negb fst snd fs log]; rewrite ?Hf, ?Hl; [|repeat split; congruence].
  destruct (FS.unlink (fs v) p); cbv beta iota zeta;
    cbn [fst snd fs log]; rewrite ?Hl; repeat split; congruence.
Qed.

Lemma respects_delete_dir t p : respects (delete_dir t p).
Proof.
  intros w v [Hf Hl]. unfold agree. run_monad. rewrite Hf.
  destruct (FS.resolve (fs v) p) as [e|rp]; cbv beta iota zeta;
    cbn [fst snd fs log]; rewrite ?Hl; [repeat split; congruence|].
  destruct (is_relative_to rp t); cbv beta iota zeta;
    cbn [negb fst snd fs log]; rewrite ?Hf, ?Hl; [|repeat split; congruence].
  destruct (FS.rmdir (fs v) p); cbv beta iota zeta;
    cbn [fst snd fs log]; rewrite ?Hl; repeat split; congruence.
Qed.

(** The engine looks at the file system and the log only. *)
Lemma respects_deletion_engine t files dirs : respects (deletion_engine t files dirs).
Proof.
  unfold deletion_engine. destruct (Nat.eqb (List.length files) 0).
  - apply respects_bind; [apply respects_console_print|]. intros _. apply respects_logger.
  - repeat (apply respects_bind; [|intros _]);
      try apply respects_console_print; try apply respects_logger;
      apply respects_for_each; intros p;
      [apply respects_delete_file | apply respects_delete_dir].
Qed.

(** X12. Answering yes at the prompt does what [--yes] does: the run ends
    the same way, with the same file system and the same log; only the
    prompt on the console tells them apart. *)
Theorem X12_yes_answer_is_yes_flag a os f :
  answer os = true ->
  fst (run a os f) = fst (run (with_yes a) os f)
  /\ fs (snd (run a os f)) = fs (snd (run (with_yes a) os f))
  /\ log (snd (run a os f)) = log (snd (run (with_yes a) os f)).
Proof.
  intros Hans.
  pose proof (run_cases a os f) as Hc. pose proof (run_cases (with_yes a) os f) as Hc'.
  assert (Ht : target_of (with_yes a) os f = target_of a os f) by reflexivity.
  rewrite Ht in Hc'. destruct (target_of a os f) as [h|t].
  { rewrite Hc, Hc'. repeat split. }
  cbv zeta in Hc, Hc'. destruct (FS.is_dir f t); cbn [negb] in Hc, Hc'.
  2:{ rewrite Hc, Hc'. repeat split. }
  destruct (markers_ok t); cbn [negb] in Hc, Hc'.
  2:{ rewrite Hc, Hc'. repeat split. }
  unfold confirmed in Hc, Hc'. rewrite Hans in Hc, Hc'.
  rewrite orb_true_r in Hc, Hc'. cbn [negb] in Hc, Hc'.
  destruct Hc as (w1 & He & _ & Hr). destruct Hc' as (w2 & He' & _ & Hr').
  rewrite Hr, Hr'. cbn [fst snd fs log say].
  assert (Hag : agree (engine_start a os f t) (engine_start (with_yes a) os f t)).
  { split; [now rewrite !engine_start_fs | now rewrite !engine_start_log]. }
  destruct (@respects_deletion_engine t (all_files_of f t) (all_dirs_of f t) _ _ Hag)
    as [_ [H1 H2]].
  rewrite He, He' in H1, H2. simpl in H1, H2. repeat split; assumption.
Qed.

Lemma X12_witness :
  answer (Ex.os true) = true
  /\ fs (snd (run (Ex.with_path false) (Ex.os true) Ex.mixed))
     = fs (snd (run (with_yes (Ex.with_path false)) (Ex.os true) Ex.mixed)).
Proof.
  split; [reflexivity|].
  exact (proj1 (proj2 (@X12_yes_answer_is_yes_flag (Ex.with_path false) (Ex.os true)
                         Ex.mixed eq_refl))).
Defined.




(** X14. The default target is the application data directory with
    [Adobe], [CameraRaw] and [Cache2] appended, and the identity check
    lets it through, whenever that path is a physical one: without a
    usable [--path], with [LOCALAPPDATA] (or, when that is unset or empty,
    [APPDATA]) giving the directory. *)
Theorem X14_default_target a os f v :
  opt_truthy (arg_path a) = false ->
  py_or (getenv os "LOCALAPPDATA") (getenv os "APPDATA") = Some v ->
  plain f (default_target_of os v) = true ->
  no_dotdot (default_target_of os v) = true ->
  target_of a os f = inr (default_target_of os v)
  /\ markers_ok (default_target_of os v) = true.
Proof.
  intros Hp Hv Hpl Hn. split.
  - unfold target_of, determine_target. rewrite Hp, Hv.
    unfold Path, resolve. unfold bind at 1. unfold ret at 1.
    unfold path_resolve, bind, get_fs, lift.
    assert (Hparts : forall P, parts (joinpath (joinpath (joinpath P "Adobe") "CameraRaw")
                                             "Cache2")
                               = parts P ++ ["Adobe"; "CameraRaw"; "Cache2"]).
    { intros P. unfold joinpath. cbn [parts absolute].
      change (parts (Path_of_string "Adobe")) with ["Adobe"].
      change (parts (Path_of_string "CameraRaw")) with ["CameraRaw"].
      change (parts (Path_of_string "Cache2")) with ["Cache2"].
      now rewrite <- !app_assoc. }
    cbn [absolute joinpath]. rewrite Hparts. fold (default_target_of os v).
    cbn [fs start]. unfold FS.resolve, FS.realpath, FS.symloop_max.
    rewrite realpath_hops_eq, walk_plain_lenient by assumption. reflexivity.
  - unfold markers_ok. apply andb_true_iff. split.
    + apply (@contains_str_iff "CameraRaw" _); [discriminate|reflexivity|].
      exists "CameraRaw". split; [|reflexivity].
      unfold default_target_of. rewrite !in_app_iff. right. right. right. now left.
    + apply (@contains_str_iff "Cache2" _); [discriminate|reflexivity|].
      exists "Cache2". split; [|reflexivity].
      unfold default_target_of. rewrite !in_app_iff. right. right. right. right. now left.
Qed.

Lemma X14_witness :
  (opt_truthy (arg_path (Ex.no_path true)) = false
   /\ plain Ex.two_files (default_target_of (Ex.os_local true) "/home/u") = true)
  /\ target_of (Ex.no_path true) (Ex.os_local true) Ex.two_files
     = inr (default_target_of (Ex.os_local true) "/home/u").
Proof.
  split; [split; vm_compute; reflexivity|].
  apply (@X14_default_target (Ex.no_path true) (Ex.os_local true) Ex.two_files "/home/u");
    vm_compute; reflexivity.
Defined.
